(** * scripts/extract_cover_colors.py: cover colour extraction and catalog update

    A shallow embedding of the script.  Python floats are IEEE binary64 and
    are modelled by Rocq's primitive floats, Python integers by [Z], tuples
    of three channels by triples, dictionaries loaded from JSON by
    association lists (field order is what [json.dump] writes back), and
    exceptions by a sum type whose left side is the raised exception. *)

From Stdlib Require Import ZArith NArith List Bool String Ascii Lia.
From Stdlib Require Import Floats Uint63.
From Stdlib Require Import HexadecimalString DecimalString.
From Stdlib Require Import Permutation Sorted.
Import ListNotations.

Set Warnings "-inexact-float,-register-all,-abstract-large-number".

(** ** Exceptions *)

(** The classes that matter to the script: [KeyboardInterrupt] and
    [SystemExit] derive from [BaseException] only, every other class listed
    derives from [Exception]. *)
Inductive exn_class : Type :=
  | KeyboardInterrupt
  | SystemExit
  | ValueError
  | TypeError
  | AttributeError
  | OSError
  | URLError
  | HTTPError
  | TimeoutError
  | UnidentifiedImageError.

Record exn : Type := Raise { exn_cls : exn_class; exn_msg : string }.

(** [isinstance(e, Exception)]. *)
Definition is_Exception (e : exn) : bool :=
  match exn_cls e with
  | KeyboardInterrupt | SystemExit => false
  | _ => true
  end.

(** A computation that returns a value or raises. *)
Definition result (A : Type) : Type := (exn + A)%type.

(** ** JSON values and dictionaries *)

(** What [json.load] produces.  An object is a Python [dict]: its fields
    in insertion order, which is the order [json.dump] writes. *)
Inductive json : Type :=
  | JNull
  | JBool (b : bool)
  | JInt (z : Z)
  | JFloat (f : float)
  | JStr (s : string)
  | JArr (items : list json)
  | JObj (fields : list (string * json)).

(** A book record and the catalog. *)
Definition record : Type := list (string * json).

Definition catalog : Type := list record.

(** [bool(v)], the test behind [not url]; [None] is [JNull]. *)
Definition truthy (v : json) : bool :=
  match v with
  | JNull => false
  | JBool b => b
  | JInt z => negb (z =? 0)%Z
  | JFloat f => negb (f =? 0)%float
  | JStr s => negb (String.length s =? 0)%nat
  | JArr items => negb (Nat.eqb (List.length items) 0)
  | JObj fields => negb (Nat.eqb (List.length fields) 0)
  end.

Fixpoint dict_lookup (key : string) (d : record) : option json :=
  match d with
  | [] => None
  | (k, v) :: t => if String.eqb key k then Some v else dict_lookup key t
  end.

(** [d.get(key, default)] and [d.get(key)], whose default is [None]. *)
Definition dict_get_default (key : string) (default : json) (d : record) : json :=
  match dict_lookup key d with
  | Some v => v
  | None => default
  end.

Definition dict_get (key : string) (d : record) : json :=
  dict_get_default key JNull d.

(** [d[key] = v]: an existing key keeps its place and takes the new
    value, a new key goes to the end. *)
Fixpoint dict_set (key : string) (v : json) (d : record) : record :=
  match d with
  | [] => [(key, v)]
  | (k, w) :: t =>
      if String.eqb key k then (k, v) :: t else (k, w) :: dict_set key v t
  end.

(** ** Python built-ins used by the script *)

Module Py.

Open Scope float_scope.

(** [float(z)] for integers below 2^63 in absolute value, which covers
    the channel values 0..255 that the script converts.  Outside that
    range this definition does not follow Python (which rounds, or raises
    [OverflowError] on integers too large for a float); every statement
    that goes through it is about 8-bit channels. *)
Definition float_of_Z (z : Z) : float :=
  if (z <? 0)%Z then - of_uint63 (Uint63.of_Z (- z))
  else of_uint63 (Uint63.of_Z z).

(** [max(a, b)]: the first argument is kept unless the second is
    strictly greater. *)
Definition max2 (a b : float) : float := if a <? b then b else a.

(** [max(a, b, c)] and [min(a, b, c)] scan their arguments from the left
    and replace the current choice only on a strict improvement. *)
Definition max3 (a b c : float) : float := max2 (max2 a b) c.

Definition min2 (a b : float) : float := if b <? a then b else a.

Definition min3 (a b c : float) : float := min2 (min2 a b) c.

(** [max(l, key=key)]: the first element whose key is maximal;
    [ValueError] on an empty list. *)
Fixpoint max_key_from {A : Type} (key : A -> float)
         (best : A) (kbest : float) (l : list A) : A :=
  match l with
  | [] => best
  | x :: t =>
      let k := key x in
      if kbest <? k then max_key_from key x k t
      else max_key_from key best kbest t
  end.

Definition max_key {A : Type} (key : A -> float) (l : list A) : result A :=
  match l with
  | [] => inl (Raise ValueError "max() arg is an empty sequence")
  | x :: t => inr (max_key_from key x (key x) t)
  end.

(** [format(z, "02x")]: lowercase hexadecimal, zero-filled to width 2,
    the sign counted in the width. *)
Definition hex_of_Z (z : Z) : string :=
  HexadecimalString.NilZero.string_of_uint (N.to_hex_uint (Z.to_N z)).

Definition zfill (width : nat) (s : string) : string :=
  let fix zeros (n : nat) : string :=
    match n with O => s | S n' => String "0"%char (zeros n') end in
  zeros (width - String.length s)%nat.

Definition format_02x (z : Z) : string :=
  if (z <? 0)%Z then String "-"%char (zfill 1 (hex_of_Z (- z)))
  else zfill 2 (hex_of_Z z).

(** [str(n)] for a natural number. *)
Definition str_of_nat (n : nat) : string :=
  DecimalString.NilZero.string_of_uint (Nat.to_uint n).

End Py.

(** ** colorsys.rgb_to_hsv *)

Module Colorsys.

Open Scope float_scope.

(** Saturation and value of [colorsys.rgb_to_hsv(r, g, b)].  The hue is
    left out: [color_score] binds it to [h] and never reads it. *)
Definition rgb_to_hsv (r g b : float) : float * float :=
  let maxc := Py.max3 r g b in
  let minc := Py.min3 r g b in
  let rangec := maxc - minc in
  let v := maxc in
  if minc =? maxc then (0.0, v)
  else
    let s := rangec / maxc in
    (s, v).

End Colorsys.

(** ** The image colour extractor *)

(** An RGB pixel as [Image.getdata] yields it: a triple of channel
    values. *)
Definition pixel : Type := (Z * Z * Z)%type.

(** Every channel of a decoded 8-bit pixel lies in 0..255. *)
Definition channel_ok (c : Z) : Prop := (0 <= c <= 255)%Z.

Definition pixel_ok (p : pixel) : Prop :=
  let '(r, g, b) := p in channel_ok r /\ channel_ok g /\ channel_ok b.

Definition pixel_eqb (p q : pixel) : bool :=
  let '(r1, g1, b1) := p in
  let '(r2, g2, b2) := q in
  ((r1 =? r2) && (g1 =? g2) && (b1 =? b2))%Z.

Module Extractor.

Open Scope float_scope.

(** The brightness part of the score as a function of the HSV value:
    [max(bright_score, 0)] with [bright_score = 1.0 - abs(v - 0.45) * 2]. *)
Definition bright_score (v : float) : float := 1.0 - abs (v - 0.45) * 2.

Definition brightness_term (v : float) : float :=
  Py.max2 (bright_score v) 0.

(** [c / 255.0] on one channel (line 15). *)
Definition scaled (c : Z) : float := Py.float_of_Z c / 255.0.

(** The channels of [rgb] scaled to 0..1 and converted to saturation and
    value (lines 15-16). *)
Definition hsv_of (rgb : pixel) : float * float :=
  let '(r, g, b) := rgb in
  Colorsys.rgb_to_hsv (scaled r) (scaled g) (scaled b).

Definition color_score (rgb : pixel) : float :=
  let '(s, v) := hsv_of rgb in
  let sat_score := s in
  sat_score * 0.7 + brightness_term v * 0.3.

(** [c // 32 * 32 + 16] on one channel, and [bucket] on a pixel. *)
Definition bucket_channel (c : Z) : Z := (c / 32 * 32 + 16)%Z.

Definition bucket (p : pixel) : pixel :=
  let '(r, g, b) := p in
  (bucket_channel r, bucket_channel g, bucket_channel b).

(** [sum(p)] and the filter condition [80 < sum(p) < 660]. *)
Definition channel_sum (p : pixel) : Z :=
  let '(r, g, b) := p in (r + g + b)%Z.

Definition keeps (p : pixel) : bool :=
  ((80 <? channel_sum p) && (channel_sum p <? 660))%Z.

(** [Counter(l)]: the colours in order of first occurrence, each with
    the number of its occurrences. *)
Fixpoint count_one (p : pixel) (c : list (pixel * nat)) : list (pixel * nat) :=
  match c with
  | [] => [(p, 1%nat)]
  | (q, n) :: t =>
      if pixel_eqb p q then (q, S n) :: t else (q, n) :: count_one p t
  end.

Definition Counter (l : list pixel) : list (pixel * nat) :=
  fold_left (fun c p => count_one p c) l [].

(** [most_common(n)] is [heapq.nlargest(n, items, key=count)], that is
    [sorted(items, key=count, reverse=True)[:n]]: a stable sort by
    decreasing count, entries of equal count keeping their order. *)
Fixpoint insert_by_count (e : pixel * nat) (sorted : list (pixel * nat))
  : list (pixel * nat) :=
  match sorted with
  | [] => [e]
  | e' :: t =>
      if (snd e' <? snd e)%nat then e :: sorted
      else e' :: insert_by_count e t
  end.

Definition sort_by_count (c : list (pixel * nat)) : list (pixel * nat) :=
  fold_left (fun acc e => insert_by_count e acc) c [].

Definition most_common (n : nat) (c : list (pixel * nat)) : list (pixel * nat) :=
  firstn n (sort_by_count c).

(** The candidate colours of lines 39-48. *)
Definition filtered_of (pixels : list pixel) : list pixel :=
  let bucketed := map bucket pixels in
  let filtered := filter keeps bucketed in
  match filtered with
  | [] => bucketed
  | _ :: _ => filtered
  end.

Definition top_colors (pixels : list pixel) : list pixel :=
  map fst (most_common 8 (Counter (filtered_of pixels))).

(** The format string "#{:02x}{:02x}{:02x}" applied to the three
    channels of [best]. *)
Definition hex_color (best : pixel) : string :=
  let '(r, g, b) := best in
  String "#"%char (Py.format_02x r ++ Py.format_02x g ++ Py.format_02x b)%string.

(** Lines 35-52: from the pixels of the resized image to the hex
    string. *)
Definition dominant_of_pixels (pixels : list pixel) : result string :=
  match Py.max_key color_score (top_colors pixels) with
  | inl e => inl e
  | inr best => inr (hex_color best)
  end.

(** [get_dominant_color(image_url)].  Lines 26-33 (the HTTP request,
    the decoding, the conversion to RGB, the resize to 80x80 and
    [getdata]) are the environment: [fetch_pixels] gives, for the
    argument, the pixel list or the exception raised on the way. *)
Definition get_dominant_color (fetch_pixels : json -> result (list pixel))
           (image_url : json) : result string :=
  match fetch_pixels image_url with
  | inl e => inl e
  | inr pixels => dominant_of_pixels pixels
  end.

End Extractor.

(** ** The catalog updater *)

(** What the script prints, one event per [print] call. *)
Inductive event : Type :=
  | Skipped (pos total : nat) (title : json)
  | Progress (pos total : nat) (title : json)
  | Colored (color : string)
  | Errored (e : exn)
  | Summary (line : string).

(** How a run of [main] ends: the catalog is written and the summary
    printed, or an exception leaves [main] before the file is opened for
    writing. *)
Inductive outcome : Type :=
  | Finished (written : catalog) (stdout : list event)
  | Crashed (e : exn).

Module Updater.

(** The final line: a blank line, then the count of updated records
    out of the total. *)
Definition summary_line (updated total : nat) : string :=
  (String (ascii_of_nat 10) "Done! Updated " ++ Py.str_of_nat updated
     ++ "/" ++ Py.str_of_nat total ++ " books.")%string.

Section World.

(** The outcome of fetching and decoding in the [i]-th iteration of
    the loop (counted from 0): two requests of one URL need not agree. *)
Variable world : nat -> json -> result (list pixel).

(** The body of the loop on line 61 for the record at index [i]: the
    record as the iteration leaves it, the counter and the output. *)
Definition visit (total i : nat) (book : record)
           (updated : nat) (out : list event)
  : result (record * nat * list event) :=
  let url := dict_get "image_url" book in
  let title := dict_get_default "title" (JStr "?") book in
  if negb (truthy url) then
    inr (book, updated, out ++ [Skipped (i + 1) total title])
  else
    let out := out ++ [Progress (i + 1) total title] in
    match Extractor.get_dominant_color (world i) url with
    | inr color =>
        inr (dict_set "cover_color" (JStr color) book,
             S updated, out ++ [Colored color])
    | inl e =>
        if is_Exception e then inr (book, updated, out ++ [Errored e])
        else inl e
    end.

(** The loop over [enumerate(books)], from index [i] on. *)
Fixpoint for_books (total i : nat) (books : catalog)
         (updated : nat) (out : list event)
  : result (catalog * nat * list event) :=
  match books with
  | [] => inr ([], updated, out)
  | book :: rest =>
      match visit total i book updated out with
      | inl e => inl e
      | inr (book', updated', out') =>
          match for_books total (S i) rest updated' out' with
          | inl e => inl e
          | inr (rest', n, o) => inr (book' :: rest', n, o)
          end
      end
  end.

(** [main] from line 60 on, given the catalog that [json.load]
    returned. *)
Definition main (books : catalog) : outcome :=
  match for_books (List.length books) 0 books 0 [] with
  | inl e => Crashed e
  | inr (books', updated, out) =>
      Finished books'
               (out ++ [Summary (summary_line updated (List.length books))])
  end.

End World.

End Updater.

(** * Vocabulary of the statements *)

(** The 256 channel values and the eight bucket midpoints. *)
Definition channels : list Z := map Z.of_nat (seq 0 256).

Definition levels : list Z := [16; 48; 80; 112; 144; 176; 208; 240]%Z.

Definition lower_hex_digit (c : ascii) : bool :=
  existsb (Ascii.eqb c) (list_ascii_of_string "0123456789abcdef").

Fixpoint all_chars (P : ascii -> bool) (s : string) : bool :=
  match s with
  | EmptyString => true
  | String c t => P c && all_chars P t
  end.

(** The lowercase hexadecimal digit of value [d], for [d] in 0..15. *)
Definition hex_digit (d : Z) : ascii :=
  nth (Z.to_nat d) (list_ascii_of_string "0123456789abcdef") "0"%char.

(** The two hexadecimal digits of a channel value, high digit first. *)
Definition two_hex_digits (c : Z) : string :=
  String (hex_digit (c / 16)) (String (hex_digit (c mod 16)) EmptyString).

(** Exactly two lowercase hexadecimal digits. *)
Definition hex_pair (s : string) : bool :=
  (String.length s =? 2)%nat && all_chars lower_hex_digit s.

(** A [#] followed by exactly six lowercase hexadecimal digits. *)
Definition is_rrggbb (s : string) : bool :=
  match s with
  | String c rest =>
      Ascii.eqb c "#" && (String.length rest =? 6)%nat
      && all_chars lower_hex_digit rest
  | EmptyString => false
  end.

(** The fields of a record other than [cover_color], in order. *)
Definition other_fields (d : record) : record :=
  filter (fun kv => negb (String.eqb "cover_color" (fst kv))) d.

(** The image reference of a record, and the extraction that the
    [i]-th iteration runs on it. *)
Definition image_url (book : record) : json := dict_get "image_url" book.

Definition extraction (world : nat -> json -> result (list pixel))
           (i : nat) (book : record) : result string :=
  Extractor.get_dominant_color (world i) (image_url book).

(** The record at index [i] has an image reference and its extraction
    returned a colour. *)
Definition succeeded (world : nat -> json -> result (list pixel))
           (i : nat) (book : record) : bool :=
  truthy (image_url book)
  && match extraction world i book with inr _ => true | inl _ => false end.

Definition one_if (b : bool) : nat := if b then 1%nat else 0%nat.

(** The number of records of [books], the first at index [i], whose
    extraction succeeded. *)
Definition successes (world : nat -> json -> result (list pixel))
           (i : nat) (books : catalog) : nat :=
  List.length
    (filter (fun ib => succeeded world (fst ib) (snd ib))
            (combine (seq i (List.length books)) books)).

(** The record at index [i] as its iteration leaves it, and the catalog
    whose first record is at index [i] as the loop leaves it, when no
    iteration lets an exception through. *)
Definition visited (world : nat -> json -> result (list pixel))
           (i : nat) (book : record) : record :=
  if truthy (image_url book) then
    match extraction world i book with
    | inr color => dict_set "cover_color" (JStr color) book
    | inl _ => book
    end
  else book.

Fixpoint visited_from (world : nat -> json -> result (list pixel))
         (i : nat) (books : catalog) : catalog :=
  match books with
  | [] => []
  | book :: rest => visited world i book :: visited_from world (S i) rest
  end.

(** ** Example data *)

(** An 80x80 image of one colour. *)
Definition solid (p : pixel) : list pixel := repeat p 6400.

Definition book_A : record :=
  [("title", JStr "A"); ("image_url", JStr "http://x/a.png")]%string.

Definition book_B : record :=
  [("title", JStr "B"); ("image_url", JStr "http://x/b.png");
   ("pages", JInt 320)]%string.

Definition book_C : record :=
  [("title", JStr "C"); ("cover_color", JStr "#000000");
   ("image_url", JStr "http://x/c.png")]%string.

Definition book_D : record :=
  [("title", JStr "D"); ("cover_color", JStr "#123456")]%string.

(** [book_A] and [book_C] with the colour of a solid (200, 40, 40)
    image assigned. *)
Definition book_A_red : record :=
  [("title", JStr "A"); ("image_url", JStr "http://x/a.png");
   ("cover_color", JStr "#d03030")]%string.

Definition book_C_red : record :=
  [("title", JStr "C"); ("cover_color", JStr "#d03030");
   ("image_url", JStr "http://x/c.png")]%string.

(** Every image is solid (200, 40, 40). *)
Definition world_red (i : nat) (url : json) : result (list pixel) :=
  inr (solid (200, 40, 40)%Z).

(** The second request fails, the others return solid images. *)
Definition world_second_fails (i : nat) (url : json) : result (list pixel) :=
  match i with
  | 1%nat => inl (Raise URLError "timed out")
  | 2%nat => inr (solid (40, 40, 200)%Z)
  | _ => inr (solid (200, 40, 40)%Z)
  end.

(** Failures of several kinds: no route, not an image, an image without
    pixels, a timeout. *)
Definition world_of_failures (i : nat) (url : json) : result (list pixel) :=
  match i with
  | 0%nat => inl (Raise URLError "no route to host")
  | 1%nat => inl (Raise UnidentifiedImageError "cannot identify image file")
  | 2%nat => inr []
  | _ => inl (Raise TimeoutError "timed out")
  end.

(** The user interrupts the first request. *)
Definition world_interrupted (i : nat) (url : json) : result (list pixel) :=
  inl (Raise KeyboardInterrupt "").

(** ** Vocabulary of the further properties *)

(** The largest and the smallest channel of a colour. *)
Definition max_channel (p : pixel) : Z :=
  let '(r, g, b) := p in Z.max (Z.max r g) b.

Definition min_channel (p : pixel) : Z :=
  let '(r, g, b) := p in Z.min (Z.min r g) b.

(** Saturation, value and score computed from the largest channel [hi]
    and the smallest channel [lo] alone. *)
Definition hsv_of_extremes (hi lo : Z) : float * float :=
  let maxc := Extractor.scaled hi in
  let minc := Extractor.scaled lo in
  if (minc =? maxc)%float then (0.0%float, maxc)
  else ((maxc - minc) / maxc, maxc)%float.

Definition score_of_extremes (hi lo : Z) : float :=
  let '(s, v) := hsv_of_extremes hi lo in
  (s * 0.7 + Extractor.brightness_term v * 0.3)%float.

(** All pairs of 8-bit channel values and all pairs of bucket midpoints. *)
Definition channel_pairs : list (Z * Z) := list_prod channels channels.

Definition level_pairs : list (Z * Z) := list_prod levels levels.

(** The number of scores of quantized colours that lie strictly below
    [k]: an embedding of those scores into the integers. *)
Definition score_rank (k : float) : Z :=
  Z.of_nat
    (List.length
       (filter (fun hl => (score_of_extremes (fst hl) (snd hl) <? k)%float)
               level_pairs)).

(** The 512 quantized colours, and the eight of them that the sum filter
    rejects. *)
Definition bucket_colors : list pixel :=
  flat_map (fun r => flat_map (fun g => map (fun b => (r, g, b)) levels) levels)
           levels.

Definition rejected_buckets : list pixel :=
  [(16, 16, 16); (16, 16, 48); (16, 48, 16); (48, 16, 16);
   (240, 240, 240); (240, 240, 208); (240, 208, 240); (208, 240, 240)]%Z.

(** [l.count(q)] and [Counter(l)[q]], which is 0 for a missing key. *)
Definition occurrences (q : pixel) (l : list pixel) : nat :=
  List.length (filter (pixel_eqb q) l).

Fixpoint count_of (q : pixel) (c : list (pixel * nat)) : nat :=
  match c with
  | [] => 0%nat
  | (q', n) :: t => if pixel_eqb q q' then n else count_of q t
  end.

(** [a] comes no later than [b] in decreasing order of count. *)
Definition by_count (a b : pixel * nat) : Prop := (snd b <= snd a)%nat.

(** The distinct colours of [l] in the order of their first occurrence. *)
Fixpoint first_seen (l : list pixel) : list pixel :=
  match l with
  | [] => []
  | x :: t => x :: filter (fun y => negb (pixel_eqb y x)) (first_seen t)
  end.

(** The notices that the iteration on the record at index [i] prints,
    and those of a whole catalog whose first record is at index [i]. *)
Definition notices (world : nat -> json -> result (list pixel))
           (total i : nat) (book : record) : list event :=
  let title := dict_get_default "title" (JStr "?") book in
  if truthy (image_url book) then
    Progress (i + 1) total title
    :: match extraction world i book with
       | inr color => [Colored color]
       | inl e => [Errored e]
       end
  else [Skipped (i + 1) total title].

Fixpoint notices_from (world : nat -> json -> result (list pixel))
         (total i : nat) (books : catalog) : list event :=
  match books with
  | [] => []
  | book :: rest =>
      notices world total i book ++ notices_from world total (S i) rest
  end.

(** The position and the total shown by a progress line. *)
Definition line_numbers (e : event) : list (nat * nat) :=
  match e with
  | Skipped pos total _ | Progress pos total _ => [(pos, total)]
  | _ => []
  end.

Definition is_colored (e : event) : bool :=
  match e with Colored _ => true | _ => false end.

Definition is_errored (e : event) : bool :=
  match e with Errored _ => true | _ => false end.

(** * Properties *)

(** ** Enumerating the 8-bit channel values *)

Lemma channel_ok_In (c : Z) : channel_ok c -> In c channels.
Proof.
  intros [Hlo Hhi]. unfold channels.
  apply in_map_iff. exists (Z.to_nat c). split.
  - lia.
  - apply in_seq. lia.
Qed.

Lemma forallb_channels (P : Z -> bool) :
  forallb P channels = true -> forall c, channel_ok c -> P c = true.
Proof.
  intros H c Hc. rewrite forallb_forall in H.
  apply H, channel_ok_In, Hc.
Qed.

(** ** Quantization *)

Lemma bucket_channel_quotient (c : Z) :
  channel_ok c ->
  exists k : Z, (0 <= k <= 7)%Z /\ (32 * k <= c < 32 * k + 32)%Z
                /\ Extractor.bucket_channel c = (32 * k + 16)%Z.
Proof.
  intros [Hlo Hhi]. exists (c / 32)%Z. unfold Extractor.bucket_channel.
  pose proof (Z.div_mod c 32 ltac:(lia)) as Hdm.
  pose proof (Z.mod_pos_bound c 32 ltac:(lia)) as Hm.
  repeat split; lia.
Qed.

Lemma bucket_channel_in_levels (c : Z) :
  channel_ok c -> In (Extractor.bucket_channel c) levels.
Proof.
  intros Hc.
  destruct (bucket_channel_quotient c Hc) as (k & Hk & _ & ->).
  assert (Hcases : (k = 0 \/ k = 1 \/ k = 2 \/ k = 3 \/ k = 4 \/ k = 5
                    \/ k = 6 \/ k = 7)%Z) by lia.
  unfold levels.
  repeat (destruct Hcases as [-> | Hcases]; [simpl; tauto |]).
  subst k. simpl. tauto.
Qed.

Lemma levels_are_channels (v : Z) : In v levels -> channel_ok v.
Proof.
  unfold levels, channel_ok. simpl. intros H.
  repeat (destruct H as [<- | H]; [lia |]). contradiction.
Qed.

Lemma levels_fixed (v : Z) : In v levels -> Extractor.bucket_channel v = v.
Proof.
  unfold levels. simpl. intros H.
  repeat (destruct H as [<- | H]; [reflexivity |]). contradiction.
Qed.

(** C4: on 0..255 the quantization [c // 32 * 32 + 16] takes its values in
    {16, 48, 80, 112, 144, 176, 208, 240}, stays within 16 of [c], and
    reaches each of the eight values. *)
Theorem bucket_channel_levels :
  (forall c : Z, channel_ok c ->
     In (Extractor.bucket_channel c) levels
     /\ (Z.abs (Extractor.bucket_channel c - c) <= 16)%Z)
  /\ (forall v : Z, In v levels ->
       exists c : Z, channel_ok c /\ Extractor.bucket_channel c = v)
  /\ NoDup levels /\ List.length levels = 8%nat.
Proof.
  split; [| split; [| split]].
  - intros c Hc. split; [now apply bucket_channel_in_levels |].
    destruct (bucket_channel_quotient c Hc) as (k & Hk & Hc' & ->). lia.
  - intros v Hv. exists v. split.
    + now apply levels_are_channels.
    + now apply levels_fixed.
  - unfold levels.
    repeat (constructor;
            [simpl; intros H; repeat destruct H as [H | H];
             try discriminate H; assumption |]).
    constructor.
  - reflexivity.
Qed.

Lemma bucket_channel_levels_witness :
  channel_ok 200
  /\ In (Extractor.bucket_channel 200) levels
  /\ (Z.abs (Extractor.bucket_channel 200 - 200) <= 16)%Z.
Proof.
  assert (H : channel_ok 200) by (unfold channel_ok; lia).
  split; [exact H |].
  exact (proj1 bucket_channel_levels 200%Z H).
Defined.

Lemma bucket_channel_idem (c : Z) :
  Extractor.bucket_channel (Extractor.bucket_channel c)
  = Extractor.bucket_channel c.
Proof.
  unfold Extractor.bucket_channel.
  replace ((c / 32 * 32 + 16) / 32)%Z with (c / 32)%Z; [reflexivity |].
  apply Z.div_unique with (r := 16%Z); lia.
Qed.

(** C9: [bucket] is idempotent on every triple of integers, and every
    triple of bucket midpoints is a fixed point. *)
Theorem bucket_idempotent :
  (forall p : pixel, Extractor.bucket (Extractor.bucket p) = Extractor.bucket p)
  /\ (forall r g b : Z, In r levels -> In g levels -> In b levels ->
       Extractor.bucket (r, g, b) = (r, g, b)).
Proof.
  split.
  - intros [[r g] b]. simpl. now rewrite !bucket_channel_idem.
  - intros r g b Hr Hg Hb. simpl.
    now rewrite (levels_fixed r Hr), (levels_fixed g Hg), (levels_fixed b Hb).
Qed.

Lemma bucket_idempotent_witness :
  Extractor.bucket (208, 48, 48)%Z = (208, 48, 48)%Z.
Proof.
  apply (proj2 bucket_idempotent); unfold levels; simpl; tauto.
Defined.

(** ** The sum filter *)

(** C5: a colour is kept exactly when its channel sum lies strictly
    between 80 and 660; sums 79, 80, 660 and 661 are dropped, sums 81 and
    659 are kept. *)
Theorem keeps_strictly_between :
  (forall p : pixel,
     Extractor.keeps p = true <-> (80 < Extractor.channel_sum p < 660)%Z)
  /\ (forall p : pixel,
       In (Extractor.channel_sum p) [79; 80; 660; 661]%Z ->
       Extractor.keeps p = false)
  /\ (forall p : pixel,
       In (Extractor.channel_sum p) [81; 659]%Z ->
       Extractor.keeps p = true).
Proof.
  assert (Hiff : forall p : pixel,
             Extractor.keeps p = true
             <-> (80 < Extractor.channel_sum p < 660)%Z).
  { intros p. unfold Extractor.keeps.
    rewrite andb_true_iff, !Z.ltb_lt. tauto. }
  split; [exact Hiff | split].
  - intros p Hp. apply not_true_is_false. rewrite Hiff.
    simpl in Hp. lia.
  - intros p Hp. rewrite Hiff. simpl in Hp. lia.
Qed.

Lemma keeps_strictly_between_witness :
  Extractor.keeps (16, 16, 48)%Z = false
  /\ Extractor.keeps (27, 27, 27)%Z = true
  /\ Extractor.keeps (220, 220, 220)%Z = false.
Proof.
  pose proof keeps_strictly_between as (_ & Hout & Hin).
  split; [| split].
  - apply Hout. simpl. tauto.
  - apply Hin. simpl. tauto.
  - apply Hout. simpl. tauto.
Defined.

(** ** The score *)

Section Score.

Import Extractor.
Open Scope float_scope.

(** Scaling by 255.0 keeps the strict order of the channel values. *)
Lemma scaled_ltb (a b : Z) :
  channel_ok a -> channel_ok b -> (scaled a <? scaled b) = (a <? b)%Z.
Proof.
  intros Ha Hb.
  pose (P := fun a : Z =>
               forallb (fun b : Z =>
                          Bool.eqb (scaled a <? scaled b) (a <? b)%Z)
                       channels).
  assert (HP : forallb P channels = true) by (vm_compute; reflexivity).
  pose proof (forallb_channels P HP a Ha) as Hrow. unfold P in Hrow.
  pose proof (forallb_channels _ Hrow b Hb) as Hcell. cbv beta in Hcell.
  now apply eqb_prop.
Qed.

Lemma max2_scaled (a b : Z) :
  channel_ok a -> channel_ok b ->
  Py.max2 (scaled a) (scaled b) = scaled (Z.max a b).
Proof.
  intros Ha Hb. unfold Py.max2. rewrite (scaled_ltb a b Ha Hb).
  destruct (a <? b)%Z eqn:E.
  - apply Z.ltb_lt in E. now rewrite Z.max_r by lia.
  - apply Z.ltb_ge in E. now rewrite Z.max_l by lia.
Qed.

Lemma snd_rgb_to_hsv (r g b : float) :
  snd (Colorsys.rgb_to_hsv r g b) = Py.max3 r g b.
Proof.
  unfold Colorsys.rgb_to_hsv.
  now destruct (Py.min3 r g b =? Py.max3 r g b).
Qed.

(** The HSV value of an 8-bit colour is its largest channel over 255. *)
Lemma value_is_max_channel (r g b : Z) :
  pixel_ok (r, g, b) ->
  snd (hsv_of (r, g, b)) = scaled (Z.max (Z.max r g) b).
Proof.
  intros (Hr & Hg & Hb). unfold hsv_of. rewrite snd_rgb_to_hsv.
  unfold Py.max3. rewrite (max2_scaled r g Hr Hg).
  apply max2_scaled; [| exact Hb].
  unfold channel_ok in *. lia.
Qed.

(** On the 256 values an 8-bit colour can have, [bright_score] is
    negative from channel 243 on, and positive below. *)
Lemma bright_score_sign (m : Z) :
  channel_ok m ->
  (bright_score (scaled m) <? 0) = (243 <=? m)%Z
  /\ (0 <? bright_score (scaled m)) = (m <=? 242)%Z.
Proof.
  intros Hm.
  pose (P := fun m : Z =>
               Bool.eqb (bright_score (scaled m) <? 0) (243 <=? m)%Z
               && Bool.eqb (0 <? bright_score (scaled m)) (m <=? 242)%Z).
  assert (HP : forallb P channels = true) by (vm_compute; reflexivity).
  pose proof (forallb_channels P HP m Hm) as H. unfold P in H.
  apply andb_true_iff in H. destruct H as [H1 H2].
  split; now apply eqb_prop.
Qed.

Lemma brightness_term_of_channel (m : Z) :
  channel_ok m ->
  ((243 <= m)%Z -> brightness_term (scaled m) = 0)
  /\ ((m <= 242)%Z ->
      brightness_term (scaled m) = 1.0 - abs (scaled m - 0.45) * 2
      /\ (0 <? brightness_term (scaled m)) = true).
Proof.
  intros Hm. destruct (bright_score_sign m Hm) as [Hneg Hpos].
  unfold brightness_term, Py.max2. split; intros Hcmp.
  - rewrite Hneg. apply Z.leb_le in Hcmp. now rewrite Hcmp.
  - rewrite Hneg.
    replace (243 <=? m)%Z with false by (symmetry; apply Z.leb_gt; lia).
    split; [reflexivity |].
    rewrite Hpos. now apply Z.leb_le.
Qed.

(** C1 (as the code has it): the score is [s * 0.7] plus 0.3 times the
    brightness term [max(1.0 - abs(v - 0.45) * 2, 0)].  The term is 1.0
    at v = 0.45 and [1.0 - 0.9], about 0.1, at v = 0.0.  For an 8-bit
    colour, v is the largest channel m over 255; the term is 0.0 when
    m >= 243 (v above 0.95) and is the positive value
    [1.0 - abs(v - 0.45) * 2] when m <= 242. *)
Theorem color_score_brightness :
  (forall rgb : pixel,
     color_score rgb
     = fst (hsv_of rgb) * 0.7 + brightness_term (snd (hsv_of rgb)) * 0.3)
  /\ (forall v : float,
       brightness_term v = Py.max2 (1.0 - abs (v - 0.45) * 2) 0)
  /\ brightness_term 0.45 = 1.0
  /\ brightness_term 0.0 = 1.0 - 0.9
  /\ (forall r g b : Z,
       pixel_ok (r, g, b) ->
       let m := Z.max (Z.max r g) b in
       let v := snd (hsv_of (r, g, b)) in
       v = scaled m
       /\ ((243 <= m)%Z -> brightness_term v = 0)
       /\ ((m <= 242)%Z ->
           brightness_term v = 1.0 - abs (v - 0.45) * 2
           /\ (0 <? brightness_term v) = true)).
Proof.
  split; [| split; [| split; [| split]]].
  - intros rgb. unfold color_score. now destruct (hsv_of rgb).
  - reflexivity.
  - vm_compute. reflexivity.
  - vm_compute. reflexivity.
  - intros r g b Hok m v.
    assert (Hv : v = scaled m) by (apply value_is_max_channel; exact Hok).
    assert (Hm : channel_ok m).
    { destruct Hok as (Hr & Hg & Hb). unfold m, channel_ok in *. lia. }
    split; [exact Hv |]. rewrite Hv.
    exact (brightness_term_of_channel m Hm).
Qed.

Lemma color_score_brightness_witness :
  pixel_ok (230, 30, 30)%Z
  /\ snd (hsv_of (230, 30, 30)%Z) = scaled 230
  /\ (0 <? brightness_term (snd (hsv_of (230, 30, 30)%Z))) = true
  /\ brightness_term (snd (hsv_of (250, 30, 30)%Z)) = 0.
Proof.
  assert (H1 : pixel_ok (230, 30, 30)%Z) by (unfold pixel_ok, channel_ok; lia).
  assert (H2 : pixel_ok (250, 30, 30)%Z) by (unfold pixel_ok, channel_ok; lia).
  pose proof (proj2 (proj2 (proj2 (proj2 color_score_brightness)))) as H.
  destruct (H 230%Z 30%Z 30%Z H1) as (Hv & _ & Hlow).
  destruct (H 250%Z 30%Z 30%Z H2) as (_ & Hhigh & _).
  split; [exact H1 | split; [exact Hv | split]].
  - apply Hlow. simpl. lia.
  - apply Hhigh. simpl. lia.
Defined.

(** C1 as stated does not hold: the brightness term is not 0.0 at value
    0.0 (pure black), nor at the value of (230, 30, 30), which is above
    0.9. *)
Lemma brightness_term_nonzero_at_0_and_above_09 :
  snd (hsv_of (0, 0, 0)%Z) = 0.0
  /\ (brightness_term (snd (hsv_of (0, 0, 0)%Z)) =? 0.0) = false
  /\ (0.9 <=? snd (hsv_of (230, 30, 30)%Z)) = true
  /\ (brightness_term (snd (hsv_of (230, 30, 30)%Z)) =? 0.0) = false.
Proof.
  repeat split; vm_compute; reflexivity.
Qed.

End Score.

(** ** The candidate colours *)

Section Candidates.

Import Extractor.

Lemma count_one_nonempty (p : pixel) (c : list (pixel * nat)) :
  count_one p c <> [].
Proof.
  destruct c as [| [q n] t]; simpl; [discriminate |].
  destruct (pixel_eqb p q); discriminate.
Qed.

Lemma count_one_keys (p q : pixel) (c : list (pixel * nat)) :
  In q (map fst (count_one p c)) -> q = p \/ In q (map fst c).
Proof.
  induction c as [| [q' n] t IH]; simpl.
  - intros [H | []]. now left.
  - destruct (pixel_eqb p q'); simpl.
    + intros H. now right.
    + intros [H | H]; [now right; left |].
      destruct (IH H) as [-> | H']; [now left | now right; right].
Qed.

Lemma count_fold_keys (l : list pixel) (acc : list (pixel * nat)) (q : pixel) :
  In q (map fst (fold_left (fun c p => count_one p c) l acc)) ->
  In q l \/ In q (map fst acc).
Proof.
  revert acc. induction l as [| p t IH]; simpl; intros acc H.
  - now right.
  - destruct (IH _ H) as [H' | H']; [now left; right |].
    destruct (count_one_keys _ _ _ H') as [-> | H'']; [now left; left | now right].
Qed.

Lemma count_fold_nonempty (l : list pixel) (acc : list (pixel * nat)) :
  acc <> [] -> fold_left (fun c p => count_one p c) l acc <> [].
Proof.
  revert acc. induction l as [| p t IH]; simpl; intros acc H; [exact H |].
  apply IH, count_one_nonempty.
Qed.

Lemma Counter_keys (l : list pixel) (q : pixel) :
  In q (map fst (Counter l)) -> In q l.
Proof.
  intros H. destruct (count_fold_keys l [] q H) as [H' | []]. exact H'.
Qed.

Lemma Counter_nonempty (l : list pixel) : l <> [] -> Counter l <> [].
Proof.
  destruct l as [| p t]; [congruence | intros _].
  unfold Counter. simpl. apply count_fold_nonempty. discriminate.
Qed.

Lemma insert_by_count_In (e x : pixel * nat) (s : list (pixel * nat)) :
  In x (insert_by_count e s) <-> x = e \/ In x s.
Proof.
  induction s as [| e' t IH]; simpl.
  - intuition.
  - destruct (snd e' <? snd e)%nat; simpl; [intuition |].
    rewrite IH. intuition.
Qed.

Lemma sort_fold_In (c acc : list (pixel * nat)) (x : pixel * nat) :
  In x (fold_left (fun acc e => insert_by_count e acc) c acc)
  <-> In x c \/ In x acc.
Proof.
  revert acc. induction c as [| e t IH]; simpl; intros acc.
  - intuition.
  - rewrite IH, insert_by_count_In. intuition.
Qed.

Lemma sort_by_count_In (c : list (pixel * nat)) (x : pixel * nat) :
  In x (sort_by_count c) <-> In x c.
Proof.
  unfold sort_by_count. rewrite sort_fold_In. simpl. intuition.
Qed.

Lemma sort_by_count_nonempty (c : list (pixel * nat)) :
  c <> [] -> sort_by_count c <> [].
Proof.
  destruct c as [| e t]; [congruence | intros _ Hnil].
  assert (H : In e (sort_by_count (e :: t)))
    by (apply sort_by_count_In; now left).
  rewrite Hnil in H. exact H.
Qed.

Lemma filtered_of_In (pixels : list pixel) (q : pixel) :
  In q (filtered_of pixels) -> In q (map bucket pixels).
Proof.
  unfold filtered_of.
  destruct (filter keeps (map bucket pixels)) as [| x t] eqn:E; [tauto |].
  rewrite <- E. intros H. now apply filter_In in H.
Qed.

Lemma filtered_of_nonempty (pixels : list pixel) :
  pixels <> [] -> filtered_of pixels <> [].
Proof.
  intros Hne. unfold filtered_of.
  destruct (filter keeps (map bucket pixels)); [| discriminate].
  destruct pixels; [congruence | discriminate].
Qed.

(** The fallback of lines 43-44. *)
Lemma filtered_of_fallback (pixels : list pixel) :
  (forall p, In p pixels -> keeps (bucket p) = false) ->
  filtered_of pixels = map bucket pixels.
Proof.
  intros Hall. unfold filtered_of.
  destruct (filter keeps (map bucket pixels)) as [| x t] eqn:E; [reflexivity |].
  assert (Hx : In x (filter keeps (map bucket pixels)))
    by (rewrite E; now left).
  apply filter_In in Hx. destruct Hx as [Hin Hk].
  apply in_map_iff in Hin. destruct Hin as (p & <- & Hp).
  rewrite (Hall p Hp) in Hk. discriminate.
Qed.

Lemma top_colors_In (pixels : list pixel) (q : pixel) :
  In q (top_colors pixels) -> In q (map bucket pixels).
Proof.
  unfold top_colors, most_common. intros H.
  apply filtered_of_In, Counter_keys.
  apply in_map_iff in H. destruct H as (e & <- & He).
  apply in_map. apply sort_by_count_In.
  rewrite <- (firstn_skipn 8 (sort_by_count _)).
  apply in_or_app. now left.
Qed.

Lemma top_colors_nonempty (pixels : list pixel) :
  pixels <> [] -> top_colors pixels <> [].
Proof.
  intros Hne. unfold top_colors, most_common.
  pose proof (sort_by_count_nonempty _
                (Counter_nonempty _ (filtered_of_nonempty _ Hne))) as Hs.
  destruct (sort_by_count (Counter (filtered_of pixels))); [congruence |].
  simpl. discriminate.
Qed.

Lemma max_key_from_In {A : Type} (key : A -> float) (l : list A)
      (best : A) (kbest : float) :
  In (Py.max_key_from key best kbest l) (best :: l).
Proof.
  revert best kbest. induction l as [| x t IH]; simpl; intros best kbest.
  - now left.
  - destruct (kbest <? key x)%float.
    + right. apply IH.
    + destruct (IH best kbest) as [H | H]; [now left | now right; right].
Qed.

(** On a non-empty image [max] has candidates, and the winner is the
    bucket of one of the pixels. *)
Lemma dominant_of_pixels_returns (pixels : list pixel) :
  pixels <> [] ->
  exists best : pixel,
    Py.max_key color_score (top_colors pixels) = inr best
    /\ In best (top_colors pixels)
    /\ dominant_of_pixels pixels = inr (hex_color best).
Proof.
  intros Hne. unfold dominant_of_pixels.
  pose proof (top_colors_nonempty pixels Hne) as Htop.
  destruct (top_colors pixels) as [| x t]; [congruence |].
  simpl. eexists. split; [reflexivity |]. split; [| reflexivity].
  apply max_key_from_In.
Qed.

(** C6: when the sum filter removes every quantized pixel of a non-empty
    image, the candidates are drawn from the unfiltered quantized pixels,
    the list handed to [max] is not empty, and a colour is returned. *)
Theorem fallback_returns_color (pixels : list pixel) :
  pixels <> [] ->
  (forall p, In p pixels -> keeps (bucket p) = false) ->
  filter keeps (map bucket pixels) = []
  /\ filtered_of pixels = map bucket pixels
  /\ top_colors pixels <> []
  /\ exists best : pixel,
      In best (map bucket pixels)
      /\ Py.max_key color_score (top_colors pixels) = inr best
      /\ dominant_of_pixels pixels = inr (hex_color best).
Proof.
  intros Hne Hall. split; [| split; [| split]].
  - destruct (filter keeps (map bucket pixels)) as [| x t] eqn:E; [reflexivity |].
    assert (Hx : In x (filter keeps (map bucket pixels)))
      by (rewrite E; now left).
    apply filter_In in Hx. destruct Hx as [Hin Hk].
    apply in_map_iff in Hin. destruct Hin as (p & <- & Hp).
    rewrite (Hall p Hp) in Hk. discriminate.
  - now apply filtered_of_fallback.
  - now apply top_colors_nonempty.
  - destruct (dominant_of_pixels_returns pixels Hne) as (best & Hmax & Hin & Hret).
    exists best. split; [now apply top_colors_In | now split].
Qed.

(** The witness is the all-black 80x80 image. *)
Lemma fallback_returns_color_witness :
  filtered_of (repeat (0, 0, 0)%Z 6400) = map bucket (repeat (0, 0, 0)%Z 6400)
  /\ dominant_of_pixels (repeat (0, 0, 0)%Z 6400) = inr "#101010"%string.
Proof.
  assert (Hne : repeat (0, 0, 0)%Z 6400 <> []) by (vm_compute; discriminate).
  assert (Hall : forall p, In p (repeat (0, 0, 0)%Z 6400) ->
                           keeps (bucket p) = false).
  { intros p Hp. apply repeat_spec in Hp. subst p. reflexivity. }
  destruct (fallback_returns_color _ Hne Hall) as (_ & Hfb & _ & _).
  split; [exact Hfb | vm_compute; reflexivity].
Defined.

End Candidates.

(** ** The returned string *)

Section Returned.

Import Extractor.

Lemma format_02x_level (v : Z) : In v levels -> hex_pair (Py.format_02x v) = true.
Proof.
  unfold levels. simpl. intros H.
  repeat (destruct H as [<- | H]; [vm_compute; reflexivity |]).
  contradiction.
Qed.

Lemma hex_pair_inv (s : string) :
  hex_pair s = true ->
  exists x y : ascii,
    s = String x (String y EmptyString)
    /\ lower_hex_digit x = true /\ lower_hex_digit y = true.
Proof.
  unfold hex_pair. intros H. apply andb_true_iff in H. destruct H as [Hlen Hall].
  destruct s as [| x [| y [| z t]]]; simpl in Hlen; try discriminate.
  simpl in Hall. rewrite andb_true_r in Hall.
  apply andb_true_iff in Hall. exists x, y. tauto.
Qed.

Lemma rrggbb_of_pairs (a b c : string) :
  hex_pair a = true -> hex_pair b = true -> hex_pair c = true ->
  is_rrggbb (String "#" (a ++ b ++ c)) = true.
Proof.
  intros Ha Hb Hc.
  destruct (hex_pair_inv a Ha) as (a1 & a2 & -> & Ha1 & Ha2).
  destruct (hex_pair_inv b Hb) as (b1 & b2 & -> & Hb1 & Hb2).
  destruct (hex_pair_inv c Hc) as (c1 & c2 & -> & Hc1 & Hc2).
  unfold is_rrggbb. simpl String.append. simpl String.length.
  unfold all_chars. rewrite Ha1, Ha2, Hb1, Hb2, Hc1, Hc2. reflexivity.
Qed.

Lemma bucket_of_ok_pixel (p : pixel) :
  pixel_ok p ->
  exists r g b : Z,
    bucket p = (r, g, b) /\ In r levels /\ In g levels /\ In b levels.
Proof.
  destruct p as [[r g] b]. intros (Hr & Hg & Hb).
  exists (bucket_channel r), (bucket_channel g), (bucket_channel b).
  split; [reflexivity |].
  repeat split; now apply bucket_channel_in_levels.
Qed.

(** *** Solid-colour images *)

Lemma pixel_eqb_refl (p : pixel) : pixel_eqb p p = true.
Proof.
  destruct p as [[r g] b]. simpl. now rewrite !Z.eqb_refl.
Qed.

Lemma count_fold_repeat (q : pixel) (n k : nat) :
  fold_left (fun c p => count_one p c) (repeat q n) [(q, k)] = [(q, (k + n)%nat)].
Proof.
  revert k. induction n as [| n IH]; intros k; simpl.
  - now rewrite Nat.add_0_r.
  - rewrite pixel_eqb_refl, IH. f_equal. f_equal. lia.
Qed.

Lemma Counter_repeat (q : pixel) (n : nat) :
  Counter (repeat q (S n)) = [(q, S n)].
Proof.
  unfold Counter. simpl. now rewrite count_fold_repeat.
Qed.

Lemma filter_repeat_true {A : Type} (f : A -> bool) (x : A) (n : nat) :
  f x = true -> filter f (repeat x n) = repeat x n.
Proof.
  intros H. induction n as [| n IH]; simpl; [reflexivity |].
  now rewrite H, IH.
Qed.

(** An image of one colour whose bucket passes the filter yields that
    bucket. *)
Lemma dominant_of_solid (p : pixel) (n : nat) :
  keeps (bucket p) = true ->
  dominant_of_pixels (repeat p (S n)) = inr (hex_color (bucket p)).
Proof.
  intros Hk. unfold dominant_of_pixels, top_colors, filtered_of.
  rewrite map_repeat, (filter_repeat_true keeps _ _ Hk).
  change (repeat (bucket p) (S n)) with (bucket p :: repeat (bucket p) n) at 1.
  cbv iota. rewrite (Counter_repeat (bucket p) n). reflexivity.
Qed.

End Returned.

(** ** Dictionaries *)

Lemma dict_lookup_set_same (key : string) (v : json) (d : record) :
  dict_lookup key (dict_set key v d) = Some v.
Proof.
  induction d as [| [k w] t IH]; simpl.
  - now rewrite String.eqb_refl.
  - destruct (String.eqb key k) eqn:E; simpl; now rewrite E.
Qed.

Lemma dict_lookup_set_other (key key' : string) (v : json) (d : record) :
  key' <> key -> dict_lookup key' (dict_set key v d) = dict_lookup key' d.
Proof.
  intros Hne. induction d as [| [k w] t IH]; simpl.
  - apply String.eqb_neq in Hne. now rewrite Hne.
  - destruct (String.eqb key k) eqn:E; simpl.
    + apply String.eqb_eq in E. subst k.
      apply String.eqb_neq in Hne. now rewrite Hne.
    + now rewrite IH.
Qed.

Lemma other_fields_set (v : json) (d : record) :
  other_fields (dict_set "cover_color" v d) = other_fields d.
Proof.
  unfold other_fields. induction d as [| [k w] t IH].
  - reflexivity.
  - cbn [dict_set].
    destruct (String.eqb "cover_color" k) eqn:E; cbn [filter fst]; rewrite E.
    + reflexivity.
    + cbn [negb]. now rewrite IH.
Qed.

(** ** The loop *)

Section Runs.

Import Updater.

Variable world : nat -> json -> result (list pixel).

(** An iteration that ends leaves the record as [visited] says and
    counts it when its extraction succeeded. *)
Lemma visit_inr (total i : nat) (book : record) (u : nat) (out : list event)
      (book' : record) (u' : nat) (out' : list event) :
  visit world total i book u out = inr (book', u', out') ->
  book' = visited world i book
  /\ u' = (u + one_if (succeeded world i book))%nat.
Proof.
  unfold visit, visited, succeeded, extraction, image_url.
  destruct (truthy (dict_get "image_url" book)); simpl.
  - destruct (Extractor.get_dominant_color (world i) (dict_get "image_url" book))
      as [e | color].
    + destruct (is_Exception e); [| discriminate].
      intros H. injection H as <- <- <-. simpl. split; [reflexivity | lia].
    + intros H. injection H as <- <- <-. simpl. split; [reflexivity | lia].
  - intros H. injection H as <- <- <-. simpl. split; [reflexivity | lia].
Qed.

(** An iteration ends unless the extraction raises outside [Exception]. *)
Lemma visit_ends (total i : nat) (book : record) (u : nat) (out : list event) :
  (forall e, truthy (image_url book) = true ->
             extraction world i book = inl e -> is_Exception e = true) ->
  exists r, visit world total i book u out = inr r.
Proof.
  unfold visit, extraction, image_url. intros H.
  destruct (truthy (dict_get "image_url" book)); simpl; [| eauto].
  destruct (Extractor.get_dominant_color (world i) (dict_get "image_url" book))
    as [e | color]; [| eauto].
  rewrite (H e eq_refl eq_refl). eauto.
Qed.

Lemma successes_cons (i : nat) (book : record) (rest : catalog) :
  successes world i (book :: rest)
  = (one_if (succeeded world i book) + successes world (S i) rest)%nat.
Proof.
  unfold successes. simpl. now destruct (succeeded world i book).
Qed.

Lemma for_books_inr (total : nat) (books : catalog) :
  forall (i u : nat) (out : list event)
         (books' : catalog) (n : nat) (o : list event),
    for_books world total i books u out = inr (books', n, o) ->
    books' = visited_from world i books
    /\ n = (u + successes world i books)%nat.
Proof.
  induction books as [| book rest IH]; intros i u out books' n o; simpl.
  - intros H. injection H as <- <- <-. unfold successes. simpl.
    split; [reflexivity | lia].
  - destruct (visit world total i book u out) as [e | [[b1 u1] o1]] eqn:Ev;
      [discriminate |].
    destruct (for_books world total (S i) rest u1 o1)
      as [e | [[r1 n1] o2]] eqn:Er; [discriminate |].
    intros H. injection H as <- <- <-.
    destruct (visit_inr _ _ _ _ _ _ _ _ Ev) as [-> ->].
    destruct (IH _ _ _ _ _ _ Er) as [-> ->].
    rewrite successes_cons. split; [reflexivity | lia].
Qed.

Lemma for_books_ends (total : nat) (books : catalog) :
  forall (i u : nat) (out : list event),
    (forall k book e,
        nth_error books k = Some book ->
        truthy (image_url book) = true ->
        extraction world (i + k) book = inl e -> is_Exception e = true) ->
    exists r, for_books world total i books u out = inr r.
Proof.
  induction books as [| book rest IH]; intros i u out H; simpl; [eauto |].
  destruct (visit_ends total i book u out) as [[[b1 u1] o1] Ev].
  { intros e Ht He. apply (H 0%nat book e); [reflexivity | exact Ht |].
    now rewrite Nat.add_0_r. }
  rewrite Ev.
  destruct (IH (S i) u1 o1) as [[[r1 n1] o2] Er].
  { intros k b e Hk Ht He. apply (H (S k) b e); [exact Hk | exact Ht |].
    now rewrite Nat.add_succ_r. }
  rewrite Er. eauto.
Qed.

Lemma visited_from_length (books : catalog) (i : nat) :
  List.length (visited_from world i books) = List.length books.
Proof.
  revert i. induction books as [| book rest IH]; intros i; simpl; [reflexivity |].
  now rewrite IH.
Qed.

Lemma visited_from_nth (books : catalog) :
  forall (i k : nat) (book : record),
    nth_error books k = Some book ->
    nth_error (visited_from world i books) k
    = Some (visited world (i + k) book).
Proof.
  induction books as [| b rest IH]; intros i k book; destruct k; simpl;
    try discriminate.
  - intros H. injection H as ->. now rewrite Nat.add_0_r.
  - intros H. rewrite (IH (S i) k book H). now rewrite Nat.add_succ_r.
Qed.

(** What [main] writes and reports, when it writes. *)
Lemma main_finished (books written : catalog) (stdout : list event) :
  main world books = Finished written stdout ->
  written = visited_from world 0 books
  /\ exists out,
      stdout = out ++ [Summary (summary_line (successes world 0 books)
                                             (List.length books))].
Proof.
  unfold main.
  destruct (for_books world (List.length books) 0 books 0 [])
    as [e | [[bs n] o]] eqn:E; [discriminate |].
  intros H. injection H as <- <-.
  destruct (for_books_inr _ _ _ _ _ _ _ _ E) as [-> ->].
  split; [reflexivity | now exists o].
Qed.

Lemma main_ends (books : catalog) :
  (forall k book e,
      nth_error books k = Some book ->
      truthy (image_url book) = true ->
      extraction world k book = inl e -> is_Exception e = true) ->
  exists written stdout, main world books = Finished written stdout.
Proof.
  intros H. unfold main.
  destruct (for_books_ends (List.length books) books 0 0 [] H)
    as [[[bs n] o] E].
  rewrite E. eauto.
Qed.

End Runs.

(** ** The catalog updater *)

Lemma visited_frame (world : nat -> json -> result (list pixel))
      (i : nat) (book : record) :
  (visited world i book = book
   \/ exists color : string,
       extraction world i book = inr color
       /\ visited world i book = dict_set "cover_color" (JStr color) book)
  /\ (truthy (image_url book) = false -> visited world i book = book).
Proof.
  unfold visited. destruct (truthy (image_url book)).
  - split; [| discriminate].
    destruct (extraction world i book) as [e | color]; [now left |].
    right. now exists color.
  - split; [now left | reflexivity].
Qed.

(** C2: the catalog that [main] writes has as many records as the input,
    in the same order; each written record is the input record, or the
    input record with [cover_color] assigned (added at the end or
    overwritten in place), so that all its other fields, their values and
    their order are those of the input record; a record whose image
    reference is absent, null or empty is written as it was read. *)
Theorem written_catalog_frame
        (world : nat -> json -> result (list pixel))
        (books written : catalog) (stdout : list event) :
  Updater.main world books = Finished written stdout ->
  List.length written = List.length books
  /\ forall (k : nat) (book : record),
      nth_error books k = Some book ->
      exists book' : record,
        nth_error written k = Some book'
        /\ (book' = book
            \/ exists color : string,
                book' = dict_set "cover_color" (JStr color) book)
        /\ other_fields book' = other_fields book
        /\ (forall key : string,
               key <> "cover_color"%string ->
               dict_lookup key book' = dict_lookup key book)
        /\ (truthy (image_url book) = false -> book' = book)
        /\ (dict_lookup "image_url" book = None -> book' = book)
        /\ (dict_lookup "image_url" book = Some (JStr "") -> book' = book).
Proof.
  intros Hmain. destruct (main_finished world _ _ _ Hmain) as [-> _].
  split; [apply visited_from_length |].
  intros k book Hk. exists (visited world k book).
  split; [exact (visited_from_nth world books 0 k book Hk) |].
  destruct (visited_frame world k book) as [Hcases Hskip].
  assert (Hshape : visited world k book = book
                   \/ exists color : string,
                       visited world k book
                       = dict_set "cover_color" (JStr color) book).
  { destruct Hcases as [H | (c & _ & H)]; [now left | right; now exists c]. }
  split; [exact Hshape |].
  split; [| split; [| split; [exact Hskip | split]]].
  - destruct Hshape as [-> | (c & ->)]; [reflexivity | apply other_fields_set].
  - intros key Hkey.
    destruct Hshape as [-> | (c & ->)];
      [reflexivity | now apply dict_lookup_set_other].
  - intros Habsent. apply Hskip.
    unfold image_url, dict_get, dict_get_default. now rewrite Habsent.
  - intros Hempty. apply Hskip.
    unfold image_url, dict_get, dict_get_default. now rewrite Hempty.
Qed.

Lemma written_catalog_frame_witness :
  Updater.main world_red [book_A; book_D; book_C]
  = Finished [book_A_red; book_D; book_C_red]
             [Progress 1 3 (JStr "A"); Colored "#d03030";
              Skipped 2 3 (JStr "D");
              Progress 3 3 (JStr "C"); Colored "#d03030";
              Summary (Updater.summary_line 2 3)]
  /\ exists book' : record,
      nth_error [book_A_red; book_D; book_C_red] 2 = Some book'
      /\ other_fields book' = other_fields book_C.
Proof.
  assert (Hmain :
            Updater.main world_red [book_A; book_D; book_C]
            = Finished [book_A_red; book_D; book_C_red]
                       [Progress 1 3 (JStr "A"); Colored "#d03030";
                        Skipped 2 3 (JStr "D");
                        Progress 3 3 (JStr "C"); Colored "#d03030";
                        Summary (Updater.summary_line 2 3)])
    by (vm_compute; reflexivity).
  split; [exact Hmain |].
  destruct (written_catalog_frame _ _ _ _ Hmain) as [_ Hrec].
  destruct (Hrec 2%nat book_C eq_refl) as (book' & Hnth & _ & Hother & _).
  exists book'. split; [exact Hnth | exact Hother].
Defined.

(** The only exception the pure part of the extraction raises is the
    [ValueError] of [max] on an empty list. *)
Lemma dominant_of_pixels_raises (pixels : list pixel) (e : exn) :
  Extractor.dominant_of_pixels pixels = inl e -> is_Exception e = true.
Proof.
  unfold Extractor.dominant_of_pixels, Py.max_key.
  destruct (Extractor.top_colors pixels); [| discriminate].
  intros H. injection H as <-. reflexivity.
Qed.

(** C3: when every failing extraction raises an [Exception] (a fetch,
    decode or timeout error), [main] finishes; a record whose extraction
    failed is written as it was read, a record whose extraction returned
    gets the colour, and the count in the summary line is the number of
    records whose extraction succeeded.  With three records of which only
    the second fails, all three are written, the first and third with
    their colour, the second as it was, and the summary reports 2/3. *)
Theorem failed_extractions_are_skipped :
  (forall (world : nat -> json -> result (list pixel)) (books : catalog),
      (forall k book e,
          nth_error books k = Some book ->
          truthy (image_url book) = true ->
          extraction world k book = inl e -> is_Exception e = true) ->
      exists (written : catalog) (out : list event),
        Updater.main world books
        = Finished written
                   (out ++ [Summary (Updater.summary_line
                                       (successes world 0 books)
                                       (List.length books))])
        /\ List.length written = List.length books
        /\ (forall k book e,
               nth_error books k = Some book ->
               truthy (image_url book) = true ->
               extraction world k book = inl e ->
               nth_error written k = Some book)
        /\ (forall k book color,
               nth_error books k = Some book ->
               truthy (image_url book) = true ->
               extraction world k book = inr color ->
               nth_error written k
               = Some (dict_set "cover_color" (JStr color) book)))
  /\ (forall (world : nat -> json -> result (list pixel))
             (b1 b2 b3 : record) (c1 c3 : string) (e : exn),
        truthy (image_url b1) = true ->
        truthy (image_url b2) = true ->
        truthy (image_url b3) = true ->
        extraction world 0 b1 = inr c1 ->
        extraction world 1 b2 = inl e ->
        is_Exception e = true ->
        extraction world 2 b3 = inr c3 ->
        (exists out : list event,
            Updater.main world [b1; b2; b3]
            = Finished [dict_set "cover_color" (JStr c1) b1; b2;
                        dict_set "cover_color" (JStr c3) b3]
                       (out ++ [Summary (Updater.summary_line 2 3)]))
        /\ dict_lookup "cover_color" (dict_set "cover_color" (JStr c1) b1)
           = Some (JStr c1)
        /\ dict_lookup "cover_color" (dict_set "cover_color" (JStr c3) b3)
           = Some (JStr c3)
        /\ Updater.summary_line 2 3
           = String (ascii_of_nat 10) "Done! Updated 2/3 books.").
Proof.
  split.
  - intros world books Hexn.
    destruct (main_ends world books Hexn) as (written & stdout & Hmain).
    destruct (main_finished world _ _ _ Hmain) as [-> (out & ->)].
    exists (visited_from world 0 books), out.
    split; [exact Hmain |]. split; [apply visited_from_length |].
    split.
    + intros k book e Hk Ht He.
      rewrite (visited_from_nth world books 0 k book Hk). simpl.
      unfold visited. now rewrite Ht, He.
    + intros k book color Hk Ht He.
      rewrite (visited_from_nth world books 0 k book Hk). simpl.
      unfold visited. now rewrite Ht, He.
  - intros world b1 b2 b3 c1 c3 e T1 T2 T3 E1 E2 He E3.
    split; [| split; [| split]].
    + destruct (main_ends world [b1; b2; b3]) as (written & stdout & Hmain).
      { intros k book e' Hk Ht He'.
        destruct k as [| [| [| k]]]; simpl in Hk.
        - injection Hk as <-. congruence.
        - injection Hk as <-. congruence.
        - injection Hk as <-. congruence.
        - destruct k; discriminate. }
      destruct (main_finished world _ _ _ Hmain) as [Hw (out & Hout)].
      exists out. rewrite Hmain, Hw, Hout. f_equal.
      * simpl. unfold visited. now rewrite T1, T2, T3, E1, E2, E3.
      * unfold successes. simpl. unfold succeeded.
        now rewrite T1, T2, T3, E1, E2, E3.
    + apply dict_lookup_set_same.
    + apply dict_lookup_set_same.
    + reflexivity.
Qed.

Lemma failed_extractions_are_skipped_witness :
  (exists (written : catalog) (out : list event),
      Updater.main world_second_fails [book_A; book_B; book_D; book_C]
      = Finished written
                 (out ++ [Summary
                            (Updater.summary_line
                               (successes world_second_fails 0
                                          [book_A; book_B; book_D; book_C])
                               4)])
      /\ nth_error written 1 = Some book_B)
  /\ (exists out : list event,
        Updater.main world_second_fails [book_A; book_B; book_C]
        = Finished [dict_set "cover_color" (JStr "#d03030") book_A; book_B;
                    dict_set "cover_color" (JStr "#3030d0") book_C]
                   (out ++ [Summary (Updater.summary_line 2 3)])).
Proof.
  pose proof failed_extractions_are_skipped as [Hall Hthree].
  split.
  - destruct (Hall world_second_fails [book_A; book_B; book_D; book_C])
      as (written & out & Hmain & _ & Hfail & _).
    + intros k book e Hk Ht He.
      destruct k as [| [| [| [| k]]]]; simpl in Hk.
      * injection Hk as <-. vm_compute in He. discriminate He.
      * injection Hk as <-. vm_compute in He. injection He as <-. reflexivity.
      * injection Hk as <-. vm_compute in Ht. discriminate Ht.
      * injection Hk as <-. vm_compute in He. discriminate He.
      * destruct k; discriminate Hk.
    + exists written, out. split; [exact Hmain |].
      apply (Hfail 1%nat book_B (Raise URLError "timed out"));
        vm_compute; reflexivity.
  - apply (Hthree world_second_fails book_A book_B book_C
                  "#d03030"%string "#3030d0"%string
                  (Raise URLError "timed out"));
      vm_compute; reflexivity.
Defined.

(** ** Exceptions during extraction *)

(** C10: if whatever the fetching and decoding of a record raises is an
    instance of [Exception], then so is whatever its extraction raises,
    the handler catches it, and [main] goes through all the records and
    writes the catalog. *)
Theorem exception_instances_never_abort
        (world : nat -> json -> result (list pixel)) (books : catalog) :
  (forall i url e, world i url = inl e -> is_Exception e = true) ->
  (forall i book e, extraction world i book = inl e -> is_Exception e = true)
  /\ exists (written : catalog) (stdout : list event),
      Updater.main world books = Finished written stdout
      /\ List.length written = List.length books.
Proof.
  intros Hworld.
  assert (Hext : forall i book e,
             extraction world i book = inl e -> is_Exception e = true).
  { intros i book e. unfold extraction, Extractor.get_dominant_color.
    destruct (world i (image_url book)) as [e0 | pixels] eqn:Ew.
    - intros H. injection H as <-. exact (Hworld _ _ _ Ew).
    - apply dominant_of_pixels_raises. }
  split; [exact Hext |].
  destruct (main_ends world books) as (written & stdout & Hmain).
  { intros k book e _ _. apply Hext. }
  exists written, stdout. split; [exact Hmain |].
  destruct (main_finished world _ _ _ Hmain) as [-> _].
  apply visited_from_length.
Qed.

Lemma exception_instances_never_abort_witness :
  exists (written : catalog) (stdout : list event),
    Updater.main world_of_failures [book_A; book_B; book_C; book_A]
    = Finished written stdout
    /\ List.length written = 4%nat.
Proof.
  refine (proj2 (exception_instances_never_abort
                   world_of_failures [book_A; book_B; book_C; book_A] _)).
  intros i url e.
  destruct i as [| [| [| i]]]; simpl; intros H;
    try discriminate H; injection H as <-; reflexivity.
Defined.

(** An exception outside [Exception] is not caught: [main] ends with it
    and nothing is written. *)
Remark keyboard_interrupt_aborts :
  Updater.main world_interrupted [book_A; book_B]
  = Crashed (Raise KeyboardInterrupt "").
Proof. reflexivity. Qed.

(** ** End to end *)

(** C7: a catalog of one record whose image is solid (200, 40, 40) is
    written with that record's [cover_color] set to "#d03030", the hex of
    the bucket midpoint (208, 48, 48). *)
Theorem solid_red_cover_color
        (world : nat -> json -> result (list pixel))
        (book : record) (n : nat) :
  truthy (image_url book) = true ->
  world 0%nat (image_url book) = inr (repeat (200, 40, 40)%Z (S n)) ->
  Updater.main world [book]
  = Finished [dict_set "cover_color" (JStr "#d03030") book]
             [Progress 1 1 (dict_get_default "title" (JStr "?") book);
              Colored "#d03030";
              Summary (Updater.summary_line 1 1)]
  /\ dict_lookup "cover_color" (dict_set "cover_color" (JStr "#d03030") book)
     = Some (JStr "#d03030")
  /\ Extractor.bucket (200, 40, 40)%Z = (208, 48, 48)%Z
  /\ Extractor.hex_color (208, 48, 48)%Z = "#d03030"%string.
Proof.
  intros Ht Hw. split; [| split; [apply dict_lookup_set_same | split; reflexivity]].
  unfold Updater.main. cbn [Updater.for_books List.length].
  unfold Updater.visit. fold (image_url book). rewrite Ht. cbn [negb].
  unfold Extractor.get_dominant_color. rewrite Hw.
  rewrite dominant_of_solid by reflexivity.
  reflexivity.
Qed.

Lemma solid_red_cover_color_witness :
  Updater.main world_red [book_A]
  = Finished [book_A_red]
             [Progress 1 1 (JStr "A"); Colored "#d03030";
              Summary (Updater.summary_line 1 1)].
Proof.
  exact (proj1 (solid_red_cover_color world_red book_A 6399
                                      eq_refl eq_refl)).
Defined.

(** * Further properties *)

(** ** The score depends on the extreme channels only *)

Section Extremes.

Import Extractor.
Open Scope float_scope.

Lemma min2_scaled (a b : Z) :
  channel_ok a -> channel_ok b ->
  Py.min2 (scaled a) (scaled b) = scaled (Z.min a b).
Proof.
  intros Ha Hb. unfold Py.min2. rewrite (scaled_ltb b a Hb Ha).
  destruct (b <? a)%Z eqn:E.
  - apply Z.ltb_lt in E. now rewrite Z.min_r by lia.
  - apply Z.ltb_ge in E. now rewrite Z.min_l by lia.
Qed.

Lemma max_channel_ok (p : pixel) : pixel_ok p -> channel_ok (max_channel p).
Proof.
  destruct p as [[r g] b]. unfold pixel_ok, channel_ok, max_channel. lia.
Qed.

Lemma min_channel_ok (p : pixel) : pixel_ok p -> channel_ok (min_channel p).
Proof.
  destruct p as [[r g] b]. unfold pixel_ok, channel_ok, min_channel. lia.
Qed.

Lemma min_le_max_channel (p : pixel) : (min_channel p <= max_channel p)%Z.
Proof.
  destruct p as [[r g] b]. unfold min_channel, max_channel. lia.
Qed.

Lemma hsv_of_by_extremes (p : pixel) :
  pixel_ok p -> hsv_of p = hsv_of_extremes (max_channel p) (min_channel p).
Proof.
  destruct p as [[r g] b]. intros (Hr & Hg & Hb).
  unfold hsv_of, Colorsys.rgb_to_hsv, hsv_of_extremes, Py.max3, Py.min3.
  rewrite (max2_scaled r g Hr Hg), (min2_scaled r g Hr Hg).
  rewrite max2_scaled by (unfold channel_ok in *; lia).
  rewrite min2_scaled by (unfold channel_ok in *; lia).
  reflexivity.
Qed.

Lemma color_score_by_extremes (p : pixel) :
  pixel_ok p ->
  color_score p = score_of_extremes (max_channel p) (min_channel p).
Proof.
  intros Hp. unfold color_score, score_of_extremes.
  now rewrite (hsv_of_by_extremes p Hp).
Qed.

Lemma forallb_channel_pairs (P : Z * Z -> bool) :
  forallb P channel_pairs = true ->
  forall a b, channel_ok a -> channel_ok b -> P (a, b) = true.
Proof.
  intros H a b Ha Hb. rewrite forallb_forall in H. apply H.
  unfold channel_pairs. apply in_prod; now apply channel_ok_In.
Qed.

(** X1: the score of an 8-bit colour is a function of its largest and
    its smallest channel; in particular it does not change when the
    channels are permuted. *)
Theorem color_score_ignores_hue :
  (forall p q : pixel,
      pixel_ok p -> pixel_ok q ->
      max_channel p = max_channel q -> min_channel p = min_channel q ->
      color_score p = color_score q)
  /\ (forall r g b : Z,
        pixel_ok (r, g, b) ->
        color_score (g, r, b) = color_score (r, g, b)
        /\ color_score (r, b, g) = color_score (r, g, b)
        /\ color_score (b, g, r) = color_score (r, g, b)
        /\ color_score (g, b, r) = color_score (r, g, b)
        /\ color_score (b, r, g) = color_score (r, g, b)).
Proof.
  assert (Hsame : forall p q : pixel,
             pixel_ok p -> pixel_ok q ->
             max_channel p = max_channel q -> min_channel p = min_channel q ->
             color_score p = color_score q).
  { intros p q Hp Hq Hmax Hmin.
    rewrite (color_score_by_extremes p Hp), (color_score_by_extremes q Hq).
    now rewrite Hmax, Hmin. }
  split; [exact Hsame |].
  intros r g b (Hr & Hg & Hb).
  repeat split; apply Hsame;
    try (unfold pixel_ok; tauto);
    unfold max_channel, min_channel; lia.
Qed.

Lemma color_score_ignores_hue_witness :
  color_score (40, 200, 90)%Z = color_score (200, 40, 90)%Z
  /\ color_score (200, 40, 200)%Z = color_score (200, 40, 90)%Z.
Proof.
  assert (H1 : pixel_ok (200, 40, 90)%Z) by (unfold pixel_ok, channel_ok; lia).
  assert (H2 : pixel_ok (200, 40, 200)%Z) by (unfold pixel_ok, channel_ok; lia).
  split.
  - exact (proj1 (proj2 color_score_ignores_hue 200 40 90 H1)%Z).
  - apply (proj1 color_score_ignores_hue); [exact H2 | exact H1 | |];
      reflexivity.
Defined.

(** X2: the score of every 8-bit colour lies between 0 and 1. *)
Theorem color_score_range (p : pixel) :
  pixel_ok p ->
  (0 <=? color_score p) = true /\ (color_score p <=? 1) = true.
Proof.
  intros Hp. rewrite (color_score_by_extremes p Hp).
  pose (P := fun hl : Z * Z =>
               (fst hl <? snd hl)%Z
               || (0 <=? score_of_extremes (fst hl) (snd hl))
                  && (score_of_extremes (fst hl) (snd hl) <=? 1)).
  assert (HP : forallb P channel_pairs = true) by (vm_compute; reflexivity).
  pose proof (forallb_channel_pairs P HP _ _ (max_channel_ok p Hp)
                                    (min_channel_ok p Hp)) as H.
  unfold P in H. cbn [fst snd] in H.
  pose proof (min_le_max_channel p) as Hle.
  apply orb_true_iff in H. destruct H as [Hbad | H].
  - apply Z.ltb_lt in Hbad. lia.
  - now apply andb_true_iff in H.
Qed.

Lemma color_score_range_witness :
  (0 <=? color_score (208, 48, 48)%Z) = true
  /\ (color_score (208, 48, 48)%Z <=? 1) = true.
Proof.
  apply color_score_range. unfold pixel_ok, channel_ok. lia.
Defined.

(** X3: the saturation of an 8-bit colour is 0.0 when its three channels
    are equal, black included, where the division is not reached;
    otherwise it is positive and at most 1. *)
Theorem saturation_of_greys_and_others (p : pixel) :
  pixel_ok p ->
  (min_channel p = max_channel p -> fst (hsv_of p) = 0.0)
  /\ (min_channel p <> max_channel p ->
      (0 <? fst (hsv_of p)) = true /\ (fst (hsv_of p) <=? 1) = true).
Proof.
  intros Hp. rewrite (hsv_of_by_extremes p Hp).
  pose (P := fun hl : Z * Z =>
               let hi := fst hl in
               let lo := snd hl in
               Bool.eqb (scaled lo =? scaled hi) (lo =? hi)%Z
               && ((hi <=? lo)%Z
                   || (0 <? (scaled hi - scaled lo) / scaled hi)
                      && ((scaled hi - scaled lo) / scaled hi <=? 1))).
  assert (HP : forallb P channel_pairs = true) by (vm_compute; reflexivity).
  pose proof (forallb_channel_pairs P HP _ _ (max_channel_ok p Hp)
                                    (min_channel_ok p Hp)) as H.
  unfold P in H. cbv zeta in H. cbn [fst snd] in H.
  apply andb_true_iff in H. destruct H as [Heq Hpos].
  apply eqb_prop in Heq. unfold hsv_of_extremes. rewrite Heq.
  pose proof (min_le_max_channel p) as Hle.
  split; intros Hcmp.
  - apply Z.eqb_eq in Hcmp. now rewrite Hcmp.
  - replace (min_channel p =? max_channel p)%Z with false
      by (symmetry; apply Z.eqb_neq; exact Hcmp).
    cbn [fst].
    apply orb_true_iff in Hpos. destruct Hpos as [Hbad | Hpos].
    + apply Z.leb_le in Hbad. lia.
    + now apply andb_true_iff in Hpos.
Qed.

Lemma saturation_of_greys_and_others_witness :
  fst (hsv_of (0, 0, 0)%Z) = 0.0
  /\ (0 <? fst (hsv_of (200, 40, 40)%Z)) = true.
Proof.
  split.
  - apply (saturation_of_greys_and_others (0, 0, 0)%Z);
      [unfold pixel_ok, channel_ok; lia | reflexivity].
  - apply (saturation_of_greys_and_others (200, 40, 40)%Z);
      [unfold pixel_ok, channel_ok; lia | simpl; lia].
Defined.

End Extremes.

(** ** Quantized colours and the filter *)

Section Quantized.

Import Extractor.

Lemma pixel_eqb_eq (p q : pixel) : pixel_eqb p q = true <-> p = q.
Proof.
  destruct p as [[r1 g1] b1], q as [[r2 g2] b2]. simpl.
  rewrite !andb_true_iff, !Z.eqb_eq. split.
  - intros [[-> ->] ->]. reflexivity.
  - intros H. injection H as -> -> ->. tauto.
Qed.

Lemma bucket_colors_In (r g b : Z) :
  In r levels -> In g levels -> In b levels -> In (r, g, b) bucket_colors.
Proof.
  intros Hr Hg Hb. unfold bucket_colors.
  apply in_flat_map. exists r. split; [exact Hr |].
  apply in_flat_map. exists g. split; [exact Hg |].
  apply in_map_iff. exists b. split; [reflexivity | exact Hb].
Qed.

Lemma bucket_in_colors (p : pixel) : pixel_ok p -> In (bucket p) bucket_colors.
Proof.
  intros Hp. destruct (bucket_of_ok_pixel p Hp) as (r & g & b & -> & Hr & Hg & Hb).
  now apply bucket_colors_In.
Qed.

Lemma bucket_colors_ok (q : pixel) : In q bucket_colors -> pixel_ok q.
Proof.
  unfold bucket_colors. intros H.
  apply in_flat_map in H. destruct H as (r & Hr & H).
  apply in_flat_map in H. destruct H as (g & Hg & H).
  apply in_map_iff in H. destruct H as (b & <- & Hb).
  repeat split; now apply levels_are_channels.
Qed.

(** X4: of the 512 quantized colours of 8-bit pixels, the sum filter
    rejects exactly eight: (16,16,16), (240,240,240) and the colours with
    one channel a step away from them; the channel sum of a kept colour
    lies between 112 and 656. *)
Theorem filter_rejects_eight_buckets :
  List.length bucket_colors = 512%nat
  /\ NoDup rejected_buckets
  /\ forall p : pixel,
      pixel_ok p ->
      (keeps (bucket p) = false <-> In (bucket p) rejected_buckets)
      /\ (keeps (bucket p) = true ->
          (112 <= channel_sum (bucket p) <= 656)%Z).
Proof.
  split; [reflexivity |]. split.
  - unfold rejected_buckets.
    repeat (constructor;
            [simpl; intros H; repeat destruct H as [H | H];
             try discriminate H; assumption |]).
    constructor.
  - intros p Hp. pose proof (bucket_in_colors p Hp) as Hin.
    pose (P := fun q : pixel =>
                 Bool.eqb (negb (keeps q)) (existsb (pixel_eqb q) rejected_buckets)
                 && (negb (keeps q)
                     || ((112 <=? channel_sum q) && (channel_sum q <=? 656))%Z)).
    assert (HP : forallb P bucket_colors = true) by (vm_compute; reflexivity).
    rewrite forallb_forall in HP. specialize (HP _ Hin). unfold P in HP.
    apply andb_true_iff in HP. destruct HP as [Hrej Hsum].
    apply eqb_prop in Hrej. split.
    + split.
      * intros Hk. rewrite Hk in Hrej. cbn [negb] in Hrej. symmetry in Hrej.
        apply existsb_exists in Hrej. destruct Hrej as (q & Hq & Heq).
        apply pixel_eqb_eq in Heq. now rewrite Heq.
      * intros Hr. destruct (keeps (bucket p)) eqn:Hk; [| reflexivity].
        cbn [negb] in Hrej. symmetry in Hrej.
        assert (Hex : existsb (pixel_eqb (bucket p)) rejected_buckets = true).
        { apply existsb_exists. exists (bucket p). split; [exact Hr |].
          now apply pixel_eqb_eq. }
        congruence.
    + intros Hk. rewrite Hk in Hsum. simpl in Hsum.
      apply andb_true_iff in Hsum. destruct Hsum as [H1 H2].
      apply Z.leb_le in H1. apply Z.leb_le in H2. lia.
Qed.

Lemma filter_rejects_eight_buckets_witness :
  (112 <= channel_sum (bucket (70, 10, 10)%Z) <= 656)%Z
  /\ keeps (bucket (3, 40, 30)%Z) = false.
Proof.
  pose proof (proj2 (proj2 filter_rejects_eight_buckets)) as H.
  split.
  - apply (H (70, 10, 10)%Z); [unfold pixel_ok, channel_ok; lia | reflexivity].
  - apply (H (3, 40, 30)%Z); [unfold pixel_ok, channel_ok; lia |].
    vm_compute. tauto.
Defined.

End Quantized.

(** ** Counting the colours *)

Section Counting.

Import Extractor.

Lemma pixel_eqb_sym (p q : pixel) : pixel_eqb p q = pixel_eqb q p.
Proof.
  destruct (pixel_eqb p q) eqn:E.
  - apply pixel_eqb_eq in E. subst q. symmetry. apply pixel_eqb_refl.
  - destruct (pixel_eqb q p) eqn:E'; [| reflexivity].
    apply pixel_eqb_eq in E'. subst q. rewrite pixel_eqb_refl in E.
    discriminate E.
Qed.

Lemma count_of_count_one (q p : pixel) (c : list (pixel * nat)) :
  count_of q (count_one p c)
  = (count_of q c + one_if (pixel_eqb q p))%nat.
Proof.
  induction c as [| [q' n] t IH]; simpl.
  - destruct (pixel_eqb q p); reflexivity.
  - destruct (pixel_eqb p q') eqn:Ep; simpl.
    + apply pixel_eqb_eq in Ep. subst q'.
      destruct (pixel_eqb q p); simpl; lia.
    + destruct (pixel_eqb q q') eqn:Eq; [| exact IH].
      apply pixel_eqb_eq in Eq. subst q'.
      rewrite pixel_eqb_sym, Ep. simpl. lia.
Qed.

Lemma count_of_fold (q : pixel) (l : list pixel) (acc : list (pixel * nat)) :
  count_of q (fold_left (fun c p => count_one p c) l acc)
  = (count_of q acc + occurrences q l)%nat.
Proof.
  revert acc. induction l as [| p t IH]; intros acc; simpl.
  - unfold occurrences. simpl. lia.
  - rewrite IH, count_of_count_one. unfold occurrences. simpl.
    destruct (pixel_eqb q p); simpl; lia.
Qed.

Lemma count_one_key_list (p : pixel) (c : list (pixel * nat)) :
  map fst (count_one p c)
  = if existsb (pixel_eqb p) (map fst c) then map fst c
    else map fst c ++ [p].
Proof.
  induction c as [| [q n] t IH]; simpl; [reflexivity |].
  destruct (pixel_eqb p q); simpl; [reflexivity |].
  rewrite IH. now destruct (existsb (pixel_eqb p) (map fst t)).
Qed.

Lemma existsb_pixel_In (p : pixel) (l : list pixel) :
  existsb (pixel_eqb p) l = true <-> In p l.
Proof.
  rewrite existsb_exists. split.
  - intros (x & Hx & E). apply pixel_eqb_eq in E. now subst x.
  - intros H. exists p. split; [exact H | apply pixel_eqb_refl].
Qed.

Lemma count_one_NoDup (p : pixel) (c : list (pixel * nat)) :
  NoDup (map fst c) -> NoDup (map fst (count_one p c)).
Proof.
  intros H. rewrite count_one_key_list.
  destruct (existsb (pixel_eqb p) (map fst c)) eqn:E; [exact H |].
  apply NoDup_app; [exact H | repeat constructor; tauto |].
  intros x Hx [<- | []].
  apply existsb_pixel_In in Hx. congruence.
Qed.

Lemma count_fold_NoDup (l : list pixel) (acc : list (pixel * nat)) :
  NoDup (map fst acc) ->
  NoDup (map fst (fold_left (fun c p => count_one p c) l acc)).
Proof.
  revert acc. induction l as [| p t IH]; intros acc H; simpl; [exact H |].
  apply IH, count_one_NoDup, H.
Qed.

Lemma count_of_entry (q : pixel) (n : nat) (c : list (pixel * nat)) :
  NoDup (map fst c) -> In (q, n) c -> count_of q c = n.
Proof.
  induction c as [| [q' n'] t IH]; simpl; [tauto |].
  intros Hnd [H | H].
  - injection H as -> ->. now rewrite pixel_eqb_refl.
  - inversion Hnd as [| x xs Hnotin Hnd']. subst.
    destruct (pixel_eqb q q') eqn:E; [| now apply IH].
    apply pixel_eqb_eq in E. subst q'.
    exfalso. apply Hnotin. apply in_map_iff. now exists (q, n).
Qed.

Lemma occurrences_pos (q : pixel) (l : list pixel) :
  In q l <-> (1 <= occurrences q l)%nat.
Proof.
  unfold occurrences. induction l as [| x t IH]; simpl.
  - split; [tauto | lia].
  - destruct (pixel_eqb q x) eqn:E; simpl.
    + apply pixel_eqb_eq in E. split; [lia | now left].
    + rewrite <- IH. split; [| tauto].
      intros [H | H]; [| exact H]. subst x.
      rewrite pixel_eqb_refl in E. discriminate E.
Qed.

(** The keys of the counter come in the order of first occurrence. *)
Lemma filter_first_seen_step (keys : list pixel) (p : pixel) (l : list pixel) :
  filter (fun y => negb (existsb (pixel_eqb y) (keys ++ [p]))) l
  = filter (fun y => negb (existsb (pixel_eqb y) keys))
           (filter (fun y => negb (pixel_eqb y p)) l).
Proof.
  induction l as [| x t IH]; simpl; [reflexivity |].
  rewrite existsb_app. simpl. rewrite orb_false_r.
  destruct (pixel_eqb x p); simpl.
  - rewrite orb_true_r. simpl. exact IH.
  - rewrite orb_false_r. destruct (existsb (pixel_eqb x) keys); simpl;
      now rewrite IH.
Qed.

Lemma filter_first_seen_skip (keys : list pixel) (p : pixel) (l : list pixel) :
  In p keys ->
  filter (fun y => negb (existsb (pixel_eqb y) keys))
         (filter (fun y => negb (pixel_eqb y p)) l)
  = filter (fun y => negb (existsb (pixel_eqb y) keys)) l.
Proof.
  intros Hp. induction l as [| x t IH]; simpl; [reflexivity |].
  destruct (pixel_eqb x p) eqn:E; simpl.
  - apply pixel_eqb_eq in E. subst x.
    replace (existsb (pixel_eqb p) keys) with true
      by (symmetry; now apply existsb_pixel_In).
    simpl. exact IH.
  - now rewrite IH.
Qed.

Lemma count_fold_key_list (l : list pixel) (acc : list (pixel * nat)) :
  map fst (fold_left (fun c p => count_one p c) l acc)
  = map fst acc
    ++ filter (fun y => negb (existsb (pixel_eqb y) (map fst acc)))
              (first_seen l).
Proof.
  revert acc. induction l as [| p t IH]; intros acc; simpl.
  - now rewrite app_nil_r.
  - rewrite IH, count_one_key_list.
    destruct (existsb (pixel_eqb p) (map fst acc)) eqn:E; simpl.
    + f_equal. symmetry. apply filter_first_seen_skip.
      now apply existsb_pixel_In.
    + rewrite <- app_assoc. simpl. f_equal. f_equal.
      apply filter_first_seen_step.
Qed.

Lemma Counter_key_list (l : list pixel) :
  map fst (Counter l) = first_seen l.
Proof.
  unfold Counter. rewrite count_fold_key_list. simpl.
  induction (first_seen l) as [| x t IH]; simpl; [reflexivity |].
  now rewrite IH.
Qed.

Lemma Counter_NoDup (l : list pixel) : NoDup (map fst (Counter l)).
Proof. apply count_fold_NoDup. constructor. Qed.

(** X5: the counter has one entry per distinct colour, in the order in
    which the colours first occur; the entry of a colour holds the number
    of its occurrences, which is at least 1, and a colour that does not
    occur has no entry and counts 0. *)
Theorem Counter_counts_occurrences (l : list pixel) :
  map fst (Counter l) = first_seen l
  /\ NoDup (map fst (Counter l))
  /\ (forall q : pixel, count_of q (Counter l) = occurrences q l)
  /\ (forall q : pixel, In q (map fst (Counter l)) <-> In q l)
  /\ (forall (q : pixel) (n : nat),
        In (q, n) (Counter l) -> n = occurrences q l /\ (1 <= n)%nat).
Proof.
  assert (Hcount : forall q, count_of q (Counter l) = occurrences q l).
  { intros q. unfold Counter. now rewrite count_of_fold. }
  assert (Hkeys : forall q, In q (map fst (Counter l)) -> In q l)
    by (intros q; apply Counter_keys).
  split; [apply Counter_key_list |]. split; [apply Counter_NoDup |].
  split; [exact Hcount |]. split.
  - intros q. split; [apply Hkeys |].
    intros Hq. apply occurrences_pos in Hq. rewrite <- Hcount in Hq.
    destruct (in_dec (fun a b : pixel =>
                        match Bool.bool_dec (pixel_eqb a b) true with
                        | left e => left (proj1 (pixel_eqb_eq a b) e)
                        | right ne =>
                            right (fun h => ne (proj2 (pixel_eqb_eq a b) h))
                        end)
                     q (map fst (Counter l))) as [Hin | Hout]; [exact Hin |].
    exfalso. clear Hcount Hkeys.
    induction (Counter l) as [| [q' n'] t IH]; simpl in *; [lia |].
    destruct (pixel_eqb q q') eqn:E.
    + apply pixel_eqb_eq in E. subst q'. tauto.
    + apply IH; tauto.
  - intros q n Hin.
    pose proof (count_of_entry q n _ (Counter_NoDup l) Hin) as Hn.
    rewrite Hcount in Hn. split; [now symmetry |].
    rewrite <- Hn. apply occurrences_pos, Hkeys.
    apply in_map_iff. now exists (q, n).
Qed.

Lemma Counter_counts_occurrences_witness :
  2%nat = occurrences (208, 48, 48)%Z
                      [(208, 48, 48); (16, 16, 16); (208, 48, 48)]%Z
  /\ (1 <= 2)%nat.
Proof.
  apply (proj2 (proj2 (proj2 (proj2
           (Counter_counts_occurrences
              [(208, 48, 48); (16, 16, 16); (208, 48, 48)]%Z))))).
  vm_compute. tauto.
Defined.

End Counting.

(** ** The most common entries *)

Section MostCommon.

Import Extractor.

Lemma insert_by_count_perm (e : pixel * nat) (s : list (pixel * nat)) :
  Permutation (insert_by_count e s) (e :: s).
Proof.
  induction s as [| e' t IH]; simpl; [reflexivity |].
  destruct (snd e' <? snd e)%nat; [reflexivity |].
  rewrite IH. apply perm_swap.
Qed.

Lemma sort_fold_perm (c acc : list (pixel * nat)) :
  Permutation (fold_left (fun acc e => insert_by_count e acc) c acc)
              (acc ++ c).
Proof.
  revert acc. induction c as [| e t IH]; intros acc; simpl.
  - now rewrite app_nil_r.
  - rewrite IH, insert_by_count_perm. apply Permutation_middle.
Qed.

Lemma sort_by_count_perm (c : list (pixel * nat)) :
  Permutation (sort_by_count c) c.
Proof. unfold sort_by_count. now rewrite sort_fold_perm. Qed.

Lemma insert_by_count_sorted (e : pixel * nat) (s : list (pixel * nat)) :
  StronglySorted by_count s -> StronglySorted by_count (insert_by_count e s).
Proof.
  intros Hs. induction Hs as [| e' t Ht IH Hall]; simpl.
  - repeat constructor.
  - destruct (snd e' <? snd e)%nat eqn:E.
    + apply Nat.ltb_lt in E.
      constructor; [now constructor |].
      constructor; [unfold by_count; lia |].
      eapply Forall_impl; [| exact Hall].
      intros x Hx. unfold by_count in *. lia.
    + apply Nat.ltb_ge in E.
      constructor; [exact IH |].
      rewrite Forall_forall. intros x Hx.
      apply insert_by_count_In in Hx. destruct Hx as [-> | Hx].
      * exact E.
      * rewrite Forall_forall in Hall. now apply Hall.
Qed.

Lemma sort_fold_sorted (c acc : list (pixel * nat)) :
  StronglySorted by_count acc ->
  StronglySorted by_count (fold_left (fun acc e => insert_by_count e acc) c acc).
Proof.
  revert acc. induction c as [| e t IH]; intros acc H; simpl; [exact H |].
  apply IH, insert_by_count_sorted, H.
Qed.

Lemma sort_by_count_sorted (c : list (pixel * nat)) :
  StronglySorted by_count (sort_by_count c).
Proof. apply sort_fold_sorted. constructor. Qed.

Lemma filter_none {A : Type} (f : A -> bool) (l : list A) :
  (forall x, In x l -> f x = false) -> filter f l = [].
Proof.
  induction l as [| x t IH]; simpl; intros H; [reflexivity |].
  rewrite (H x (or_introl eq_refl)). apply IH. intros y Hy. apply H. now right.
Qed.

(** Stability: the entries of one count keep their order. *)
Lemma insert_by_count_stable (n : nat) (e : pixel * nat)
      (s : list (pixel * nat)) :
  StronglySorted by_count s ->
  filter (fun x => (snd x =? n)%nat) (insert_by_count e s)
  = filter (fun x => (snd x =? n)%nat) s
    ++ filter (fun x => (snd x =? n)%nat) [e].
Proof.
  intros Hs. induction Hs as [| e' t Ht IH Hall].
  - reflexivity.
  - cbn [insert_by_count]. destruct (snd e' <? snd e)%nat eqn:E.
    + apply Nat.ltb_lt in E.
      destruct (snd e =? n)%nat eqn:En.
      * apply Nat.eqb_eq in En.
        assert (Hnone : filter (fun x => (snd x =? n)%nat) (e' :: t) = []).
        { apply filter_none. intros x [<- | Hx].
          - apply Nat.eqb_neq. lia.
          - rewrite Forall_forall in Hall. specialize (Hall x Hx).
            unfold by_count in Hall. apply Nat.eqb_neq. lia. }
        change (filter (fun x => (snd x =? n)%nat) (e :: e' :: t))
          with (if (snd e =? n)%nat
                then e :: filter (fun x => (snd x =? n)%nat) (e' :: t)
                else filter (fun x => (snd x =? n)%nat) (e' :: t)).
        rewrite Hnone. reflexivity.
      * change (filter (fun x => (snd x =? n)%nat) (e :: e' :: t))
          with (if (snd e =? n)%nat
                then e :: filter (fun x => (snd x =? n)%nat) (e' :: t)
                else filter (fun x => (snd x =? n)%nat) (e' :: t)).
        cbn [filter]. rewrite En. now rewrite app_nil_r.
    + cbn [filter]. destruct (snd e' =? n)%nat; rewrite IH; reflexivity.
Qed.

Lemma sort_fold_stable (n : nat) (c acc : list (pixel * nat)) :
  StronglySorted by_count acc ->
  filter (fun x => (snd x =? n)%nat)
         (fold_left (fun acc e => insert_by_count e acc) c acc)
  = filter (fun x => (snd x =? n)%nat) acc
    ++ filter (fun x => (snd x =? n)%nat) c.
Proof.
  revert acc. induction c as [| e t IH]; intros acc H; simpl.
  - now rewrite app_nil_r.
  - rewrite IH by now apply insert_by_count_sorted.
    rewrite insert_by_count_stable by exact H.
    rewrite <- app_assoc. f_equal. simpl.
    now destruct (snd e =? n)%nat.
Qed.

Lemma sorted_app_order (l1 l2 : list (pixel * nat)) :
  StronglySorted by_count (l1 ++ l2) ->
  forall a b, In a l1 -> In b l2 -> (snd b <= snd a)%nat.
Proof.
  induction l1 as [| x t IH]; simpl; intros H a b Ha Hb; [tauto |].
  inversion H as [| y ys Hs Hall]. subst.
  destruct Ha as [<- | Ha].
  - rewrite Forall_forall in Hall. apply (Hall b).
    apply in_or_app. now right.
  - now apply (IH Hs a b).
Qed.

Lemma sorted_firstn (k : nat) (l : list (pixel * nat)) :
  StronglySorted by_count l -> StronglySorted by_count (firstn k l).
Proof.
  intros H. revert k. induction H as [| x t Ht IH Hall]; intros k.
  - rewrite firstn_nil. constructor.
  - destruct k; simpl; constructor; [apply IH |].
    rewrite Forall_forall in *. intros y Hy. apply Hall.
    rewrite <- (firstn_skipn k t). apply in_or_app. now left.
Qed.

(** X6: [most_common k] returns [k] entries of the counter, or all of
    them when there are fewer, in non-increasing order of count; no entry
    left out has a larger count than an entry returned; and in the sorted
    list the entries of one count keep the order they have in the
    counter. *)
Theorem most_common_selects_largest (k : nat) (c : list (pixel * nat)) :
  List.length (most_common k c) = Nat.min k (List.length c)
  /\ StronglySorted by_count (most_common k c)
  /\ Permutation (most_common k c ++ skipn k (sort_by_count c)) c
  /\ (forall a b,
        In a (most_common k c) -> In b (skipn k (sort_by_count c)) ->
        (snd b <= snd a)%nat)
  /\ (forall n : nat,
        filter (fun x => (snd x =? n)%nat) (sort_by_count c)
        = filter (fun x => (snd x =? n)%nat) c).
Proof.
  unfold most_common. split; [| split; [| split; [| split]]].
  - rewrite length_firstn.
    now rewrite (Permutation_length (sort_by_count_perm c)).
  - apply sorted_firstn, sort_by_count_sorted.
  - rewrite firstn_skipn. apply sort_by_count_perm.
  - apply sorted_app_order. rewrite firstn_skipn. apply sort_by_count_sorted.
  - intros n. unfold sort_by_count.
    rewrite sort_fold_stable by constructor. reflexivity.
Qed.

Lemma most_common_selects_largest_witness :
  (snd ((16, 16, 16)%Z, 1%nat) <= snd ((208, 48, 48)%Z, 2%nat))%nat.
Proof.
  apply (proj1 (proj2 (proj2 (proj2
           (most_common_selects_largest
              1 [((16, 16, 16)%Z, 1%nat); ((208, 48, 48)%Z, 2%nat);
                 ((80, 80, 80)%Z, 1%nat)])))));
    vm_compute; tauto.
Defined.

End MostCommon.

(** ** The candidates *)

Section Top.

Import Extractor.

Lemma top_colors_filtered (pixels : list pixel) (q : pixel) :
  In q (top_colors pixels) -> In q (filtered_of pixels).
Proof.
  unfold top_colors, most_common. intros H.
  apply Counter_keys.
  apply in_map_iff in H. destruct H as (e & <- & He).
  apply in_map. apply sort_by_count_In.
  rewrite <- (firstn_skipn 8 (sort_by_count _)).
  apply in_or_app. now left.
Qed.

Lemma top_colors_NoDup (pixels : list pixel) : NoDup (top_colors pixels).
Proof.
  unfold top_colors, most_common.
  set (c := Counter (filtered_of pixels)).
  assert (H : NoDup (map fst (sort_by_count c))).
  { apply (Permutation_NoDup (l := map fst c)).
    - apply Permutation_map. symmetry. apply sort_by_count_perm.
    - apply Counter_NoDup. }
  rewrite <- (firstn_skipn 8 (sort_by_count c)), map_app in H.
  now apply NoDup_app_remove_r in H.
Qed.

Lemma filtered_of_kept (pixels : list pixel) :
  (exists p, In p pixels /\ keeps (bucket p) = true) ->
  filtered_of pixels = filter keeps (map bucket pixels).
Proof.
  intros (p & Hp & Hk). unfold filtered_of.
  destruct (filter keeps (map bucket pixels)) as [| x t] eqn:E; [| reflexivity].
  assert (Hin : In (bucket p) (filter keeps (map bucket pixels))).
  { apply filter_In. split; [now apply in_map | exact Hk]. }
  rewrite E in Hin. contradiction.
Qed.

(** X7: there are at most 8 candidates, all distinct, each the bucket of
    a pixel of the image; a colour that is not a candidate does not occur
    more often among the filtered buckets than a candidate does; and as
    soon as one bucket of the image passes the sum filter, every
    candidate passes it. *)
Theorem candidates_are_the_most_frequent (pixels : list pixel) :
  (List.length (top_colors pixels) <= 8)%nat
  /\ NoDup (top_colors pixels)
  /\ (forall c, In c (top_colors pixels) ->
                exists p, In p pixels /\ c = bucket p)
  /\ (forall c q,
        In c (top_colors pixels) -> In q (filtered_of pixels) ->
        In q (top_colors pixels)
        \/ (occurrences q (filtered_of pixels)
            <= occurrences c (filtered_of pixels))%nat)
  /\ ((exists p, In p pixels /\ keeps (bucket p) = true) ->
      forall c, In c (top_colors pixels) -> keeps c = true).
Proof.
  split; [| split; [| split; [| split]]].
  - unfold top_colors, most_common. rewrite length_map, length_firstn. lia.
  - apply top_colors_NoDup.
  - intros c Hc. apply top_colors_In in Hc.
    apply in_map_iff in Hc. destruct Hc as (p & <- & Hp). now exists p.
  - intros c q Hc Hq. unfold top_colors, most_common in *.
    set (cnt := Counter (filtered_of pixels)) in *.
    assert (Hentry : forall x n, In (x, n) (sort_by_count cnt) ->
                                 n = occurrences x (filtered_of pixels)).
    { intros x n Hx. apply (proj1 (sort_by_count_In _ _)) in Hx.
      unfold cnt in Hx.
      pose proof (count_of_entry x n _ (Counter_NoDup _) Hx) as Hn.
      unfold Counter in Hn. rewrite count_of_fold in Hn. simpl in Hn.
      now symmetry. }
    assert (Hqkey : In q (map fst (sort_by_count cnt))).
    { apply (Permutation_in (l := map fst cnt)).
      - apply Permutation_map. symmetry. apply sort_by_count_perm.
      - unfold cnt. rewrite Counter_key_list.
        clear - Hq. induction (filtered_of pixels) as [| x t IH];
          simpl in *; [tauto |].
        destruct (pixel_eqb q x) eqn:E.
        + apply pixel_eqb_eq in E. now left.
        + right. apply filter_In. split.
          * apply IH. destruct Hq as [-> | Hq]; [| exact Hq].
            rewrite pixel_eqb_refl in E. discriminate E.
          * now rewrite E. }
    apply in_map_iff in Hqkey. destruct Hqkey as ([q' nq] & Hq' & Hqin).
    simpl in Hq'. subst q'.
    apply in_map_iff in Hc. destruct Hc as ([c' nc] & Hc' & Hcin).
    simpl in Hc'. subst c'.
    rewrite <- (firstn_skipn 8 (sort_by_count cnt)) in Hqin.
    apply in_app_or in Hqin. destruct Hqin as [Hfirst | Hrest].
    + left. apply in_map_iff. now exists (q, nq).
    + right.
      pose proof (sorted_app_order (firstn 8 (sort_by_count cnt))
                                   (skipn 8 (sort_by_count cnt))) as Hord.
      rewrite firstn_skipn in Hord.
      specialize (Hord (sort_by_count_sorted cnt) _ _ Hcin Hrest).
      simpl in Hord.
      rewrite <- (Hentry q nq), <- (Hentry c nc); [exact Hord | |].
      * rewrite <- (firstn_skipn 8 (sort_by_count cnt)).
        apply in_or_app. now left.
      * rewrite <- (firstn_skipn 8 (sort_by_count cnt)).
        apply in_or_app. now right.
  - intros Hex c Hc. apply top_colors_filtered in Hc.
    rewrite (filtered_of_kept pixels Hex) in Hc.
    now apply filter_In in Hc.
Qed.

Lemma candidates_are_the_most_frequent_witness :
  In (208, 48, 48)%Z
     (top_colors [(0, 0, 0); (200, 40, 40); (255, 255, 255)]%Z)
  /\ keeps (208, 48, 48)%Z = true.
Proof.
  assert (Hin : In (208, 48, 48)%Z
                   (top_colors [(0, 0, 0); (200, 40, 40); (255, 255, 255)]%Z))
    by (vm_compute; tauto).
  split; [exact Hin |].
  apply (proj2 (proj2 (proj2 (proj2
           (candidates_are_the_most_frequent
              [(0, 0, 0); (200, 40, 40); (255, 255, 255)]%Z))))).
  - exists (200, 40, 40)%Z. split; [simpl; tauto | reflexivity].
  - exact Hin.
Defined.

End Top.

(** ** The winner *)

Section Winner.

Import Extractor.
Open Scope float_scope.

(** [max] with a key, when the comparison of the keys agrees with an
    order on the integers: the result is the first element whose key is
    maximal. *)
Lemma max_key_from_split {A : Type} (key : A -> float) (rk : A -> Z)
      (Q : A -> Prop) :
  (forall a b, Q a -> Q b -> (key a <? key b) = (rk a <? rk b)%Z) ->
  forall (l pre mid : list A) (best : A),
    Forall Q (pre ++ best :: mid ++ l) ->
    (forall x, In x pre -> (rk x < rk best)%Z) ->
    (forall x, In x mid -> (rk x <= rk best)%Z) ->
    exists before after : list A,
      pre ++ best :: mid ++ l
      = before ++ Py.max_key_from key best (key best) l :: after
      /\ (forall x, In x before ->
                    (rk x < rk (Py.max_key_from key best (key best) l))%Z)
      /\ (forall x, In x after ->
                    (rk x <= rk (Py.max_key_from key best (key best) l))%Z).
Proof.
  intros Hemb l. induction l as [| x t IH]; intros pre mid best HQ Hpre Hmid.
  - exists pre, mid. simpl. rewrite app_nil_r. tauto.
  - simpl.
    assert (Qbest : Q best).
    { rewrite Forall_forall in HQ. apply HQ.
      apply in_or_app. right. now left. }
    assert (Qx : Q x).
    { rewrite Forall_forall in HQ. apply HQ.
      apply in_or_app. right. right. apply in_or_app. right. now left. }
    rewrite (Hemb best x Qbest Qx).
    destruct (rk best <? rk x)%Z eqn:E.
    + apply Z.ltb_lt in E.
      destruct (IH (pre ++ best :: mid) [] x) as (before & after & Heq & Hb & Ha).
      * simpl. rewrite <- app_assoc. exact HQ.
      * intros y Hy. apply in_app_or in Hy.
        destruct Hy as [Hy | [<- | Hy]].
        -- specialize (Hpre y Hy). lia.
        -- exact E.
        -- specialize (Hmid y Hy). lia.
      * intros y [].
      * exists before, after. split; [| tauto].
        rewrite <- Heq. simpl. now rewrite <- app_assoc.
    + apply Z.ltb_ge in E.
      destruct (IH pre (mid ++ [x]) best) as (before & after & Heq & Hb & Ha).
      * rewrite <- app_assoc. exact HQ.
      * exact Hpre.
      * intros y Hy. apply in_app_or in Hy.
        destruct Hy as [Hy | [<- | []]]; [now apply Hmid | exact E].
      * exists before, after. split; [| tauto].
        rewrite <- Heq. now rewrite <- app_assoc.
Qed.

Lemma extremes_of_levels (r g b : Z) :
  In r levels -> In g levels -> In b levels ->
  In (max_channel (r, g, b), min_channel (r, g, b)) level_pairs.
Proof.
  intros Hr Hg Hb. unfold level_pairs. apply in_prod.
  - unfold max_channel.
    destruct (Z.max_spec r g) as [[_ ->] | [_ ->]];
      [destruct (Z.max_spec g b) as [[_ ->] | [_ ->]]
      | destruct (Z.max_spec r b) as [[_ ->] | [_ ->]]]; assumption.
  - unfold min_channel.
    destruct (Z.min_spec r g) as [[_ ->] | [_ ->]];
      [destruct (Z.min_spec r b) as [[_ ->] | [_ ->]]
      | destruct (Z.min_spec g b) as [[_ ->] | [_ ->]]]; assumption.
Qed.

(** On the quantized colours the comparison of scores agrees with the
    comparison of their ranks. *)
Lemma score_rank_embeds (p q : pixel) :
  In p bucket_colors -> In q bucket_colors ->
  (color_score p <? color_score q)
  = (score_rank (color_score p) <? score_rank (color_score q))%Z.
Proof.
  intros Hp Hq.
  rewrite (color_score_by_extremes p (bucket_colors_ok p Hp)).
  rewrite (color_score_by_extremes q (bucket_colors_ok q Hq)).
  pose (P := fun a : Z * Z =>
               forallb
                 (fun b : Z * Z =>
                    Bool.eqb
                      (score_of_extremes (fst a) (snd a)
                       <? score_of_extremes (fst b) (snd b))
                      (score_rank (score_of_extremes (fst a) (snd a))
                       <? score_rank (score_of_extremes (fst b) (snd b)))%Z)
                 level_pairs).
  assert (HP : forallb P level_pairs = true) by (vm_compute; reflexivity).
  assert (Hin : forall x, In x bucket_colors ->
                          In (max_channel x, min_channel x) level_pairs).
  { intros x Hx. unfold bucket_colors in Hx.
    apply in_flat_map in Hx. destruct Hx as (r & Hr & Hx).
    apply in_flat_map in Hx. destruct Hx as (g & Hg & Hx).
    apply in_map_iff in Hx. destruct Hx as (b & <- & Hb).
    now apply extremes_of_levels. }
  rewrite forallb_forall in HP. specialize (HP _ (Hin p Hp)).
  unfold P in HP. rewrite forallb_forall in HP. specialize (HP _ (Hin q Hq)).
  cbn [fst snd] in HP. now apply eqb_prop in HP.
Qed.



End Winner.

(** ** The returned string and the winner *)

Lemma format_02x_digits (c : Z) :
  channel_ok c -> Py.format_02x c = two_hex_digits c.
Proof.
  intros Hc.
  pose proof (forallb_channels
                (fun c => String.eqb (Py.format_02x c) (two_hex_digits c))
                ltac:(vm_compute; reflexivity) c Hc) as H.
  now apply String.eqb_eq in H.
Qed.

(** C8: whenever the extraction of an 8-bit image returns, the string
    encodes the winning quantized colour: the first candidate of maximal
    score, whose channels are bucket midpoints.  The string is [#]
    followed, for the red, the green and the blue channel in this order,
    by the two lowercase hexadecimal digits of the channel value, the
    high digit first: six digits in all. *)
Theorem returned_color_is_hex_of_winner (pixels : list pixel) (s : string) :
  Forall pixel_ok pixels ->
  Extractor.dominant_of_pixels pixels = inr s ->
  exists (before after : list pixel) (r g b : Z),
    Extractor.top_colors pixels = before ++ (r, g, b) :: after
    /\ (forall c, In c before ->
                  (Extractor.color_score c <? Extractor.color_score (r, g, b))%float
                  = true)
    /\ (forall c, In c after ->
                  (Extractor.color_score (r, g, b) <? Extractor.color_score c)%float
                  = false)
    /\ (exists pr pg pb : Z,
          In (pr, pg, pb) pixels
          /\ r = (pr / 32 * 32 + 16)%Z
          /\ g = (pg / 32 * 32 + 16)%Z
          /\ b = (pb / 32 * 32 + 16)%Z)
    /\ In r levels /\ In g levels /\ In b levels
    /\ s = String "#" (two_hex_digits r ++ two_hex_digits g
                                        ++ two_hex_digits b)
    /\ String.length s = 7%nat
    /\ is_rrggbb s = true.
Proof.
  intros Hok Hret.
  assert (Hne : pixels <> []).
  { intros ->. vm_compute in Hret. discriminate. }
  assert (HQ : Forall (fun c => In c bucket_colors)
                      (Extractor.top_colors pixels)).
  { rewrite Forall_forall. intros c Hc. apply top_colors_In in Hc.
    apply in_map_iff in Hc. destruct Hc as (p & <- & Hp).
    rewrite Forall_forall in Hok. now apply bucket_in_colors, Hok. }
  pose proof (top_colors_nonempty pixels Hne) as Htop.
  unfold Extractor.dominant_of_pixels in Hret.
  destruct (Extractor.top_colors pixels) as [| x t] eqn:Et; [congruence |].
  simpl in Hret. injection Hret as <-.
  set (best := Py.max_key_from Extractor.color_score x
                               (Extractor.color_score x) t) in *.
  destruct (max_key_from_split Extractor.color_score
              (fun c => score_rank (Extractor.color_score c))
              (fun c => In c bucket_colors) score_rank_embeds
              t [] [] x) as (before & after & Heq & Hb & Ha).
  { exact HQ. }
  { intros y []. }
  { intros y []. }
  simpl in Heq. fold best in Heq, Hb, Ha.
  assert (Hall : forall c, In c (x :: t) -> In c bucket_colors)
    by (now apply Forall_forall).
  assert (Hbest : In best (x :: t)) by apply max_key_from_In.
  assert (Hbc : In best bucket_colors) by now apply Hall.
  assert (Hpix : exists p, In p pixels /\ Extractor.bucket p = best).
  { assert (Hin : In best (Extractor.top_colors pixels))
      by (rewrite Et; exact Hbest).
    apply top_colors_In in Hin. apply in_map_iff in Hin.
    destruct Hin as (p & Hp & Hpin). now exists p. }
  destruct Hpix as (p & Hpin & Hp).
  rewrite Forall_forall in Hok.
  destruct (bucket_of_ok_pixel p (Hok p Hpin))
    as (r & g & b & Hrgb & Hr & Hg & Hbl).
  assert (Ebest : best = (r, g, b)) by congruence.
  exists before, after, r, g, b. rewrite <- Ebest.
  split; [exact Heq |]. split; [| split; [| split]].
  - intros c Hc. rewrite score_rank_embeds; [| | exact Hbc].
    + apply Z.ltb_lt. now apply Hb.
    + apply Hall. rewrite Heq. apply in_or_app. now left.
  - intros c Hc. rewrite score_rank_embeds; [| exact Hbc |].
    + apply Z.ltb_ge. now apply Ha.
    + apply Hall. rewrite Heq. apply in_or_app. right. now right.
  - destruct p as [[pr pg] pb]. exists pr, pg, pb.
    split; [exact Hpin |].
    simpl in Hrgb. unfold Extractor.bucket_channel in Hrgb.
    injection Hrgb as <- <- <-. tauto.
  - split; [exact Hr |]. split; [exact Hg |]. split; [exact Hbl |].
    assert (Hs : Extractor.hex_color best
                 = String "#" (two_hex_digits r ++ two_hex_digits g
                                                ++ two_hex_digits b)).
    { rewrite Ebest. unfold Extractor.hex_color.
      now rewrite !format_02x_digits by now apply levels_are_channels. }
    split; [exact Hs |]. split; [now rewrite Hs |].
    rewrite Ebest. unfold Extractor.hex_color.
    apply rrggbb_of_pairs; now apply format_02x_level.
Qed.

Lemma returned_color_is_hex_of_winner_witness :
  exists (before after : list pixel) (r g b : Z),
    Extractor.top_colors
      [(90, 90, 90); (90, 90, 90); (200, 40, 40); (250, 250, 250)]%Z
    = before ++ (r, g, b) :: after
    /\ In r levels
    /\ "#d03030"%string
       = String "#" (two_hex_digits r ++ two_hex_digits g
                                      ++ two_hex_digits b).
Proof.
  destruct (returned_color_is_hex_of_winner
              [(90, 90, 90); (90, 90, 90); (200, 40, 40); (250, 250, 250)]%Z
              "#d03030")
    as (before & after & r & g & b & H1 & _ & _ & _ & H2 & _ & _ & H3 & _).
  - repeat constructor; unfold channel_ok; lia.
  - vm_compute. reflexivity.
  - exists before, after, r, g, b. repeat split; assumption.
Defined.

(** ** Solid images, empty images and the hex encoding *)

Section Encoding.

Import Extractor.

Lemma filter_repeat_false {A : Type} (f : A -> bool) (x : A) (n : nat) :
  f x = false -> filter f (repeat x n) = [].
Proof.
  intros H. apply filter_none. intros y Hy.
  apply repeat_spec in Hy. now subst y.
Qed.

(** X9: an image whose pixels all have one 8-bit colour yields the hex
    string of the bucket of that colour, whether or not the bucket passes
    the sum filter, and that bucket is its only candidate. *)
Theorem solid_image_yields_its_bucket (p : pixel) (n : nat) :
  pixel_ok p ->
  dominant_of_pixels (repeat p (S n)) = inr (hex_color (bucket p))
  /\ top_colors (repeat p (S n)) = [bucket p].
Proof.
  intros _.
  assert (Hf : filtered_of (repeat p (S n)) = repeat (bucket p) (S n)).
  { unfold filtered_of. rewrite map_repeat.
    destruct (keeps (bucket p)) eqn:Hk.
    - rewrite (filter_repeat_true keeps _ _ Hk). reflexivity.
    - rewrite (filter_repeat_false keeps _ _ Hk). reflexivity. }
  assert (Ht : top_colors (repeat p (S n)) = [bucket p]).
  { unfold top_colors. rewrite Hf, Counter_repeat. reflexivity. }
  split; [| exact Ht].
  unfold dominant_of_pixels. rewrite Ht. reflexivity.
Qed.

Lemma solid_image_yields_its_bucket_witness :
  dominant_of_pixels (repeat (255, 255, 255)%Z 6400) = inr "#f0f0f0"%string
  /\ top_colors (repeat (255, 255, 255)%Z 6400) = [(240, 240, 240)%Z].
Proof.
  apply (solid_image_yields_its_bucket (255, 255, 255)%Z 6399).
  unfold pixel_ok, channel_ok. lia.
Defined.

(** X10: the part of the extraction that follows the decoding raises
    exactly when the image has no pixel, and what it raises is a
    [ValueError]; [get_dominant_color] raises what the fetching and
    decoding raised, or that [ValueError] when they returned no pixel. *)
Theorem extraction_raises_only_on_no_pixels :
  (forall pixels : list pixel,
      (exists e, dominant_of_pixels pixels = inl e) <-> pixels = [])
  /\ (forall (pixels : list pixel) (e : exn),
        dominant_of_pixels pixels = inl e -> exn_cls e = ValueError)
  /\ (forall (fetch : json -> result (list pixel)) (url : json) (e : exn),
        get_dominant_color fetch url = inl e <->
        fetch url = inl e
        \/ (fetch url = inr [] /\ dominant_of_pixels [] = inl e)).
Proof.
  assert (H : forall (pixels : list pixel) (e : exn),
             dominant_of_pixels pixels = inl e -> pixels = []).
  { intros pixels e Hr. destruct pixels as [| p t]; [reflexivity |].
    destruct (dominant_of_pixels_returns (p :: t)) as (best & _ & _ & Hb);
      [discriminate | congruence]. }
  split; [| split].
  - intros pixels. split.
    + intros (e & He). exact (H pixels e He).
    + intros ->. eexists. reflexivity.
  - intros pixels e He. pose proof (H pixels e He) as ->.
    vm_compute in He. injection He as <-. reflexivity.
  - intros fetch url e. unfold get_dominant_color.
    destruct (fetch url) as [e0 | pixels].
    + split.
      * intros Hr. injection Hr as <-. now left.
      * intros [Hr | [Hr _]]; [| discriminate Hr].
        injection Hr as <-. reflexivity.
    + split.
      * intros Hr. pose proof (H pixels e Hr) as ->. right. now split.
      * intros [Hr | [Hr He]]; [discriminate Hr |].
        injection Hr as ->. exact He.
Qed.

Lemma extraction_raises_only_on_no_pixels_witness :
  exn_cls (Raise ValueError "max() arg is an empty sequence") = ValueError.
Proof.
  apply (proj1 (proj2 extraction_raises_only_on_no_pixels) []).
  reflexivity.
Defined.

Lemma format_02x_channel (c : Z) :
  channel_ok c -> hex_pair (Py.format_02x c) = true.
Proof.
  apply (forallb_channels (fun c => hex_pair (Py.format_02x c))).
  vm_compute. reflexivity.
Qed.

Lemma format_02x_injective (a b : Z) :
  channel_ok a -> channel_ok b ->
  Py.format_02x a = Py.format_02x b -> a = b.
Proof.
  intros Ha Hb Heq.
  pose (P := fun ab : Z * Z =>
               Bool.eqb (String.eqb (Py.format_02x (fst ab))
                                    (Py.format_02x (snd ab)))
                        (fst ab =? snd ab)%Z).
  assert (HP : forallb P channel_pairs = true) by (vm_compute; reflexivity).
  pose proof (forallb_channel_pairs P HP a b Ha Hb) as H.
  unfold P in H. cbn [fst snd] in H. apply eqb_prop in H.
  rewrite Heq, String.eqb_refl in H. symmetry in H. now apply Z.eqb_eq in H.
Qed.

(** X11: the hex string of every 8-bit colour is [#] followed by six
    lowercase hexadecimal digits, and two 8-bit colours with the same hex
    string are the same colour. *)
Theorem hex_color_is_injective (p q : pixel) :
  pixel_ok p -> pixel_ok q ->
  is_rrggbb (hex_color p) = true
  /\ (hex_color p = hex_color q -> p = q).
Proof.
  destruct p as [[r1 g1] b1], q as [[r2 g2] b2].
  intros (Hr1 & Hg1 & Hb1) (Hr2 & Hg2 & Hb2).
  pose proof (format_02x_channel r1 Hr1) as Fr1.
  pose proof (format_02x_channel g1 Hg1) as Fg1.
  pose proof (format_02x_channel b1 Hb1) as Fb1.
  split; [unfold hex_color; now apply rrggbb_of_pairs |].
  pose proof (format_02x_channel r2 Hr2) as Fr2.
  pose proof (format_02x_channel g2 Hg2) as Fg2.
  pose proof (format_02x_channel b2 Hb2) as Fb2.
  unfold hex_color. intros Heq.
  destruct (hex_pair_inv _ Fr1) as (x1 & y1 & Er1 & _).
  destruct (hex_pair_inv _ Fg1) as (x2 & y2 & Eg1 & _).
  destruct (hex_pair_inv _ Fb1) as (x3 & y3 & Eb1 & _).
  destruct (hex_pair_inv _ Fr2) as (u1 & v1 & Er2 & _).
  destruct (hex_pair_inv _ Fg2) as (u2 & v2 & Eg2 & _).
  destruct (hex_pair_inv _ Fb2) as (u3 & v3 & Eb2 & _).
  rewrite Er1, Eg1, Eb1, Er2, Eg2, Eb2 in Heq. simpl in Heq.
  injection Heq as -> -> -> -> -> ->.
  rewrite <- Er2 in Er1. rewrite <- Eg2 in Eg1. rewrite <- Eb2 in Eb1.
  rewrite (format_02x_injective r1 r2 Hr1 Hr2 Er1).
  rewrite (format_02x_injective g1 g2 Hg1 Hg2 Eg1).
  now rewrite (format_02x_injective b1 b2 Hb1 Hb2 Eb1).
Qed.

Lemma hex_color_is_injective_witness :
  is_rrggbb (hex_color (5, 0, 255)%Z) = true.
Proof.
  apply (hex_color_is_injective (5, 0, 255)%Z (5, 0, 255)%Z);
    unfold pixel_ok, channel_ok; lia.
Defined.

End Encoding.

(** ** Assigning a field *)

Lemma dict_lookup_In (key : string) (d : record) :
  dict_lookup key d <> None <-> In key (map fst d).
Proof.
  induction d as [| [k w] t IH]; simpl.
  - split; [congruence | tauto].
  - destruct (String.eqb key k) eqn:E.
    + apply String.eqb_eq in E. subst k. split; [now left | discriminate].
    + apply String.eqb_neq in E. rewrite IH. split; [tauto |].
      intros [H | H]; [congruence | exact H].
Qed.

Lemma dict_set_present (key : string) (v : json) (d : record) :
  dict_lookup key d <> None -> map fst (dict_set key v d) = map fst d.
Proof.
  induction d as [| [k w] t IH]; simpl; [congruence |].
  destruct (String.eqb key k) eqn:E; simpl; [reflexivity |].
  intros H. now rewrite IH.
Qed.

Lemma dict_set_absent (key : string) (v : json) (d : record) :
  dict_lookup key d = None -> dict_set key v d = d ++ [(key, v)].
Proof.
  induction d as [| [k w] t IH]; simpl; [reflexivity |].
  destruct (String.eqb key k) eqn:E; [discriminate |].
  intros H. now rewrite IH.
Qed.

Lemma dict_set_twice (key : string) (v v' : json) (d : record) :
  dict_set key v (dict_set key v' d) = dict_set key v d.
Proof.
  induction d as [| [k w] t IH]; simpl.
  - now rewrite String.eqb_refl.
  - destruct (String.eqb key k) eqn:E; simpl; rewrite E; [reflexivity |].
    now rewrite IH.
Qed.

(** X12: assigning a field that the record has keeps the order of its
    fields; assigning a field it lacks appends the field; either way the
    field then reads as the assigned value, distinct keys stay distinct,
    and a second assignment replaces the first. *)
Theorem dict_set_keeps_field_order (key : string) (v : json) (d : record) :
  (dict_lookup key d <> None -> map fst (dict_set key v d) = map fst d)
  /\ (dict_lookup key d = None -> dict_set key v d = d ++ [(key, v)])
  /\ (NoDup (map fst d) -> NoDup (map fst (dict_set key v d)))
  /\ dict_lookup key (dict_set key v d) = Some v
  /\ (forall v' : json, dict_set key v (dict_set key v' d) = dict_set key v d).
Proof.
  split; [apply dict_set_present |]. split; [apply dict_set_absent |].
  split; [| split; [apply dict_lookup_set_same |]].
  - intros Hnd. destruct (dict_lookup key d) eqn:E.
    + rewrite dict_set_present by congruence. exact Hnd.
    + rewrite (dict_set_absent key v d E), map_app. simpl.
      apply NoDup_app; [exact Hnd | repeat constructor; tauto |].
      intros x Hx [<- | []].
      apply dict_lookup_In in Hx. congruence.
  - intros v'. apply dict_set_twice.
Qed.

Lemma dict_set_keeps_field_order_witness :
  map fst (dict_set "cover_color" (JStr "#d03030") book_C) = map fst book_C
  /\ dict_set "cover_color" (JStr "#d03030") book_A
     = book_A ++ [("cover_color"%string, JStr "#d03030")]
  /\ NoDup (map fst (dict_set "cover_color" (JStr "#d03030") book_A)).
Proof.
  split; [| split].
  - apply dict_set_keeps_field_order. vm_compute. discriminate.
  - apply dict_set_keeps_field_order. reflexivity.
  - apply dict_set_keeps_field_order. vm_compute.
    repeat (constructor;
            [simpl; intros H; repeat destruct H as [H | H];
             try discriminate H; assumption |]).
    constructor.
Defined.

(** ** Runs of the updater *)

Section MoreRuns.

Import Updater.

Variable world : nat -> json -> result (list pixel).

Lemma visit_out (total i : nat) (book : record) (u : nat) (out : list event)
      (book' : record) (u' : nat) (out' : list event) :
  visit world total i book u out = inr (book', u', out') ->
  out' = out ++ notices world total i book.
Proof.
  unfold visit, notices, extraction, image_url.
  destruct (truthy (dict_get "image_url" book)); simpl.
  - destruct (Extractor.get_dominant_color (world i) (dict_get "image_url" book))
      as [e | color].
    + destruct (is_Exception e); [| discriminate].
      intros H. injection H as <- <- <-. now rewrite <- app_assoc.
    + intros H. injection H as <- <- <-. now rewrite <- app_assoc.
  - intros H. injection H as <- <- <-. reflexivity.
Qed.

Lemma for_books_out (total : nat) (books : catalog) :
  forall (i u : nat) (out : list event)
         (books' : catalog) (n : nat) (o : list event),
    for_books world total i books u out = inr (books', n, o) ->
    o = out ++ notices_from world total i books.
Proof.
  induction books as [| book rest IH]; intros i u out books' n o; simpl.
  - intros H. injection H as <- <- <-. now rewrite app_nil_r.
  - destruct (visit world total i book u out) as [e | [[b1 u1] o1]] eqn:Ev;
      [discriminate |].
    destruct (for_books world total (S i) rest u1 o1)
      as [e | [[r1 n1] o2]] eqn:Er; [discriminate |].
    intros H. injection H as <- <- <-.
    rewrite (IH _ _ _ _ _ _ Er), (visit_out _ _ _ _ _ _ _ _ Ev).
    now rewrite <- app_assoc.
Qed.

(** An iteration that ends has met no exception outside [Exception]. *)
Lemma visit_inr_caught (total i : nat) (book : record) (u : nat)
      (out : list event) (r : record * nat * list event) (e : exn) :
  visit world total i book u out = inr r ->
  truthy (image_url book) = true ->
  extraction world i book = inl e -> is_Exception e = true.
Proof.
  unfold visit, extraction, image_url. intros Hv Ht He.
  rewrite Ht, He in Hv. simpl in Hv.
  destruct (is_Exception e); [reflexivity | discriminate].
Qed.

(** An iteration that raises has met an exception outside [Exception]. *)
Lemma visit_inl (total i : nat) (book : record) (u : nat)
      (out : list event) (e : exn) :
  visit world total i book u out = inl e ->
  truthy (image_url book) = true
  /\ extraction world i book = inl e /\ is_Exception e = false.
Proof.
  unfold visit, extraction, image_url.
  destruct (truthy (dict_get "image_url" book)); simpl; [| discriminate].
  destruct (Extractor.get_dominant_color (world i) (dict_get "image_url" book))
    as [e0 | color]; [| discriminate].
  destruct (is_Exception e0) eqn:E; [discriminate |].
  intros H. injection H as <-. tauto.
Qed.

Lemma for_books_inr_caught (total : nat) (books : catalog) :
  forall (i u : nat) (out : list event) (r : catalog * nat * list event),
    for_books world total i books u out = inr r ->
    forall k book e,
      nth_error books k = Some book ->
      truthy (image_url book) = true ->
      extraction world (i + k) book = inl e -> is_Exception e = true.
Proof.
  induction books as [| b rest IH]; intros i u out r Hr k book e Hk Ht He.
  - destruct k; discriminate.
  - simpl in Hr.
    destruct (visit world total i b u out) as [e0 | [[b1 u1] o1]] eqn:Ev;
      [discriminate |].
    destruct (for_books world total (S i) rest u1 o1)
      as [e0 | r1] eqn:Er; [discriminate |].
    destruct k as [| k]; simpl in Hk.
    + injection Hk as ->. rewrite Nat.add_0_r in He.
      exact (visit_inr_caught _ _ _ _ _ _ _ Ev Ht He).
    + apply (IH _ _ _ _ Er k book e Hk Ht).
      now rewrite Nat.add_succ_r in He.
Qed.

Lemma for_books_inl (total : nat) (books : catalog) :
  forall (i u : nat) (out : list event) (e : exn),
    for_books world total i books u out = inl e ->
    exists k book,
      nth_error books k = Some book
      /\ truthy (image_url book) = true
      /\ extraction world (i + k) book = inl e
      /\ is_Exception e = false
      /\ forall j b e',
          (j < k)%nat -> nth_error books j = Some b ->
          truthy (image_url b) = true ->
          extraction world (i + j) b = inl e' -> is_Exception e' = true.
Proof.
  induction books as [| b rest IH]; intros i u out e; simpl; [discriminate |].
  destruct (visit world total i b u out) as [e0 | [[b1 u1] o1]] eqn:Ev.
  - intros H. injection H as ->.
    destruct (visit_inl _ _ _ _ _ _ Ev) as (Ht & He & Hn).
    exists 0%nat, b. rewrite Nat.add_0_r.
    repeat split; try assumption. intros j b' e' Hj. lia.
  - destruct (for_books world total (S i) rest u1 o1)
      as [e0 | [[r1 n1] o2]] eqn:Er; [| discriminate].
    intros H. injection H as ->.
    destruct (IH _ _ _ _ Er) as (k & book & Hk & Ht & He & Hn & Hfirst).
    exists (S k), book. rewrite Nat.add_succ_r.
    repeat split; try assumption.
    intros j b' e' Hj Hnth Ht' He'. destruct j as [| j]; simpl in Hnth.
    + injection Hnth as ->. rewrite Nat.add_0_r in He'.
      exact (visit_inr_caught _ _ _ _ _ _ _ Ev Ht' He').
    + apply (Hfirst j b' e'); [lia | exact Hnth | exact Ht' |].
      now rewrite Nat.add_succ_r in He'.
Qed.

Lemma main_stdout (books written : catalog) (stdout : list event) :
  main world books = Finished written stdout ->
  stdout = notices_from world (List.length books) 0 books
           ++ [Summary (summary_line (successes world 0 books)
                                     (List.length books))].
Proof.
  unfold main.
  destruct (for_books world (List.length books) 0 books 0 [])
    as [e | [[bs n] o]] eqn:E; [discriminate |].
  intros H. injection H as <- <-.
  destruct (for_books_inr _ _ _ _ _ _ _ _ _ E) as [_ ->].
  now rewrite (for_books_out _ _ _ _ _ _ _ _ E).
Qed.

End MoreRuns.

(** X13: [main] writes the catalog exactly when no record with an image
    reference has an extraction that raises outside [Exception]; when
    [main] ends with an exception instead, it is the one raised at the
    first such record, and nothing is written. *)
Theorem main_writes_unless_uncaught
        (world : nat -> json -> result (list pixel)) (books : catalog) :
  ((exists written stdout, Updater.main world books = Finished written stdout)
   <-> (forall k book e,
           nth_error books k = Some book ->
           truthy (image_url book) = true ->
           extraction world k book = inl e -> is_Exception e = true))
  /\ (forall e : exn,
        Updater.main world books = Crashed e ->
        exists k book,
          nth_error books k = Some book
          /\ truthy (image_url book) = true
          /\ extraction world k book = inl e
          /\ is_Exception e = false
          /\ forall j b e',
              (j < k)%nat -> nth_error books j = Some b ->
              truthy (image_url b) = true ->
              extraction world j b = inl e' -> is_Exception e' = true).
Proof.
  split.
  - split; [| apply main_ends].
    intros (written & stdout & Hmain). unfold Updater.main in Hmain.
    destruct (Updater.for_books world (List.length books) 0 books 0 [])
      as [e | r] eqn:E; [discriminate |].
    intros k book e Hk Ht He.
    exact (for_books_inr_caught world _ _ _ _ _ _ E k book e Hk Ht He).
  - intros e Hmain. unfold Updater.main in Hmain.
    destruct (Updater.for_books world (List.length books) 0 books 0 [])
      as [e0 | [[bs n] o]] eqn:E; [| discriminate].
    injection Hmain as ->.
    exact (for_books_inl world _ _ _ _ _ _ E).
Qed.

Lemma main_writes_unless_uncaught_witness :
  exists k book,
    nth_error [book_D; book_A; book_B] k = Some book
    /\ truthy (image_url book) = true
    /\ extraction world_interrupted k book = inl (Raise KeyboardInterrupt "")
    /\ is_Exception (Raise KeyboardInterrupt "") = false.
Proof.
  destruct (proj2 (main_writes_unless_uncaught
                     world_interrupted [book_D; book_A; book_B])
                  (Raise KeyboardInterrupt "") eq_refl)
    as (k & book & H1 & H2 & H3 & H4 & _).
  exists k, book. tauto.
Defined.

Lemma for_books_all_skipped
      (world : nat -> json -> result (list pixel)) (total : nat)
      (books : catalog) :
  (forall book, In book books -> truthy (image_url book) = false) ->
  forall (i u : nat) (out : list event),
    Updater.for_books world total i books u out
    = inr (books, u,
           out ++ map (fun ib =>
                         Skipped (fst ib + 1) total
                                 (dict_get_default "title" (JStr "?") (snd ib)))
                      (combine (seq i (List.length books)) books)).
Proof.
  induction books as [| b rest IH]; intros Hall i u out; simpl.
  - now rewrite app_nil_r.
  - unfold Updater.visit. fold (image_url b).
    rewrite (Hall b (or_introl eq_refl)). simpl.
    rewrite IH by (intros x Hx; apply Hall; now right).
    now rewrite <- app_assoc.
Qed.

(** X14: a catalog in which no record has an image reference (the field
    is absent, null or empty) is written back as it was read, whatever
    the network would answer; every record gets its skip notice and the
    summary reports 0 updated. *)
Theorem catalog_without_images_is_unchanged
        (world : nat -> json -> result (list pixel)) (books : catalog) :
  (forall book, In book books -> truthy (image_url book) = false) ->
  Updater.main world books
  = Finished books
             (map (fun ib =>
                     Skipped (fst ib + 1) (List.length books)
                             (dict_get_default "title" (JStr "?") (snd ib)))
                  (combine (seq 0 (List.length books)) books)
              ++ [Summary (Updater.summary_line 0 (List.length books))]).
Proof.
  intros Hall. unfold Updater.main.
  now rewrite (for_books_all_skipped world _ books Hall).
Qed.

Lemma catalog_without_images_is_unchanged_witness :
  Updater.main world_interrupted
               [book_D; [("title"%string, JStr "E");
                         ("image_url"%string, JStr "")]]
  = Finished [book_D; [("title"%string, JStr "E");
                       ("image_url"%string, JStr "")]]
             [Skipped 1 2 (JStr "D"); Skipped 2 2 (JStr "E");
              Summary (Updater.summary_line 0 2)].
Proof.
  apply (catalog_without_images_is_unchanged world_interrupted).
  intros book [<- | [<- | []]]; reflexivity.
Defined.

Lemma image_url_visited (world : nat -> json -> result (list pixel))
      (i : nat) (book : record) :
  image_url (visited world i book) = image_url book.
Proof.
  unfold visited. destruct (truthy (image_url book)); [| reflexivity].
  destruct (extraction world i book) as [e | color]; [reflexivity |].
  unfold image_url, dict_get, dict_get_default.
  rewrite dict_lookup_set_other; [reflexivity | discriminate].
Qed.

Lemma visited_twice (world : nat -> json -> result (list pixel))
      (i : nat) (book : record) :
  visited world i (visited world i book) = visited world i book.
Proof.
  assert (Hext : extraction world i (visited world i book)
                 = extraction world i book).
  { unfold extraction. now rewrite image_url_visited. }
  unfold visited at 1. rewrite image_url_visited, Hext.
  unfold visited.
  destruct (truthy (image_url book)); [| reflexivity].
  destruct (extraction world i book) as [e | color]; [reflexivity |].
  apply dict_set_twice.
Qed.

Lemma visited_from_twice (world : nat -> json -> result (list pixel))
      (books : catalog) (i : nat) :
  visited_from world i (visited_from world i books)
  = visited_from world i books.
Proof.
  revert i. induction books as [| b rest IH]; intros i; simpl; [reflexivity |].
  now rewrite visited_twice, IH.
Qed.

(** X15: running the updater again on the catalog it wrote, with the
    network answering as before, writes the same catalog: the colours are
    recomputed and assigned over themselves. *)
Theorem rerun_writes_the_same_catalog
        (world : nat -> json -> result (list pixel))
        (books written : catalog) (stdout : list event) :
  Updater.main world books = Finished written stdout ->
  exists stdout' : list event,
    Updater.main world written = Finished written stdout'.
Proof.
  intros Hmain.
  destruct (main_finished world _ _ _ Hmain) as [Hw _].
  assert (Hcaught : forall k book e,
             nth_error books k = Some book ->
             truthy (image_url book) = true ->
             extraction world k book = inl e -> is_Exception e = true).
  { unfold Updater.main in Hmain.
    destruct (Updater.for_books world (List.length books) 0 books 0 [])
      as [e | r] eqn:E; [discriminate |].
    exact (for_books_inr_caught world _ _ _ _ _ _ E). }
  destruct (main_ends world written) as (written' & stdout' & Hmain').
  { intros k book' e Hk Ht He. subst written.
    destruct (nth_error books k) as [book |] eqn:Hb.
    - rewrite (visited_from_nth world books 0 k book Hb) in Hk.
      simpl in Hk. injection Hk as <-.
      rewrite image_url_visited in Ht.
      unfold extraction in He. rewrite image_url_visited in He.
      exact (Hcaught k book e Hb Ht He).
    - apply nth_error_None in Hb.
      assert (Hsome : nth_error (visited_from world 0 books) k <> None)
        by congruence.
      apply nth_error_Some in Hsome.
      rewrite visited_from_length in Hsome. lia. }
  exists stdout'. rewrite Hmain'.
  destruct (main_finished world _ _ _ Hmain') as [-> _].
  subst written. now rewrite visited_from_twice.
Qed.

Lemma rerun_writes_the_same_catalog_witness :
  exists stdout' : list event,
    Updater.main world_second_fails
                 [book_A_red; book_B;
                  dict_set "cover_color" (JStr "#3030d0") book_C]
    = Finished [book_A_red; book_B;
                dict_set "cover_color" (JStr "#3030d0") book_C] stdout'.
Proof.
  apply (rerun_writes_the_same_catalog
           world_second_fails [book_A; book_B; book_C] _
           [Progress 1 3 (JStr "A"); Colored "#d03030";
            Progress 2 3 (JStr "B"); Errored (Raise URLError "timed out");
            Progress 3 3 (JStr "C"); Colored "#3030d0";
            Summary (Updater.summary_line 2 3)]).
  vm_compute. reflexivity.
Defined.

(** ** What a run writes and prints *)

Lemma dominant_of_pixels_rrggbb (pixels : list pixel) (s : string) :
  Forall pixel_ok pixels ->
  Extractor.dominant_of_pixels pixels = inr s -> is_rrggbb s = true.
Proof.
  intros Hok Hret.
  assert (Hne : pixels <> []).
  { intros ->. vm_compute in Hret. discriminate. }
  destruct (dominant_of_pixels_returns pixels Hne) as (best & _ & Hin & Hbest).
  rewrite Hbest in Hret. injection Hret as <-.
  apply top_colors_In in Hin.
  apply in_map_iff in Hin. destruct Hin as (p & <- & Hp).
  rewrite Forall_forall in Hok.
  destruct (bucket_of_ok_pixel p (Hok p Hp)) as (r & g & b & -> & Hr & Hg & Hb).
  unfold Extractor.hex_color.
  apply rrggbb_of_pairs; now apply format_02x_level.
Qed.

(** X16: when the decoder yields 8-bit pixels, every record whose
    extraction succeeded is written with a [cover_color] that reads back
    as the extracted string, and that string is [#] followed by six
    lowercase hexadecimal digits. *)
Theorem written_colors_are_rrggbb
        (world : nat -> json -> result (list pixel))
        (books written : catalog) (stdout : list event) :
  (forall i url pixels, world i url = inr pixels -> Forall pixel_ok pixels) ->
  Updater.main world books = Finished written stdout ->
  forall (k : nat) (book : record) (color : string),
    nth_error books k = Some book ->
    truthy (image_url book) = true ->
    extraction world k book = inr color ->
    exists book' : record,
      nth_error written k = Some book'
      /\ dict_get "cover_color" book' = JStr color
      /\ is_rrggbb color = true.
Proof.
  intros Hworld Hmain k book color Hk Ht He.
  destruct (main_finished world _ _ _ Hmain) as [-> _].
  exists (dict_set "cover_color" (JStr color) book).
  split; [| split].
  - rewrite (visited_from_nth world books 0 k book Hk). simpl.
    unfold visited. now rewrite Ht, He.
  - unfold dict_get, dict_get_default. now rewrite dict_lookup_set_same.
  - unfold extraction, Extractor.get_dominant_color in He.
    destruct (world k (image_url book)) as [e | pixels] eqn:Ew;
      [discriminate |].
    exact (dominant_of_pixels_rrggbb pixels color (Hworld _ _ _ Ew) He).
Qed.

Lemma written_colors_are_rrggbb_witness :
  exists book' : record,
    nth_error [book_A_red; book_B;
               dict_set "cover_color" (JStr "#3030d0") book_C] 2
    = Some book'
    /\ dict_get "cover_color" book' = JStr "#3030d0"
    /\ is_rrggbb "#3030d0" = true.
Proof.
  apply (written_colors_are_rrggbb
           world_second_fails [book_A; book_B; book_C] _
           [Progress 1 3 (JStr "A"); Colored "#d03030";
            Progress 2 3 (JStr "B"); Errored (Raise URLError "timed out");
            Progress 3 3 (JStr "C"); Colored "#3030d0";
            Summary (Updater.summary_line 2 3)]
           ltac:(intros i url pixels H;
                 destruct i as [| [| [| i]]]; simpl in H;
                 try discriminate H; injection H as <-;
                 apply Forall_forall; intros p Hp;
                 apply repeat_spec in Hp; subst p;
                 unfold pixel_ok, channel_ok; lia)
           ltac:(vm_compute; reflexivity)
           2%nat book_C "#3030d0"%string);
    vm_compute; reflexivity.
Defined.

Lemma successes_le_with_image
      (world : nat -> json -> result (list pixel)) (books : catalog) (i : nat) :
  (successes world i books
   <= List.length (filter (fun b => truthy (image_url b)) books))%nat.
Proof.
  revert i. induction books as [| b rest IH]; intros i.
  - unfold successes. simpl. lia.
  - rewrite successes_cons. specialize (IH (S i)). simpl.
    unfold succeeded.
    destruct (truthy (image_url b)); simpl; [| exact IH].
    destruct (extraction world i b); simpl; lia.
Qed.

Lemma no_success_no_change
      (world : nat -> json -> result (list pixel)) (books : catalog) (i : nat) :
  successes world i books = 0%nat -> visited_from world i books = books.
Proof.
  revert i. induction books as [| b rest IH]; intros i; [reflexivity |].
  rewrite successes_cons. intros H. simpl.
  rewrite IH by lia. f_equal.
  unfold succeeded in H. unfold visited.
  destruct (truthy (image_url b)); [| reflexivity].
  destruct (extraction world i b); [reflexivity |].
  simpl in H. lia.
Qed.

(** X17: the number of updated records never exceeds the number of
    records with an image reference, which never exceeds the number of
    records; and when no extraction succeeded the catalog is written back
    as it was read. *)
Theorem updated_count_bounds
        (world : nat -> json -> result (list pixel))
        (books written : catalog) (stdout : list event) :
  Updater.main world books = Finished written stdout ->
  (exists out,
      stdout = out ++ [Summary (Updater.summary_line (successes world 0 books)
                                                     (List.length books))])
  /\ (successes world 0 books
      <= List.length (filter (fun b => truthy (image_url b)) books)
      <= List.length books)%nat
  /\ (successes world 0 books = 0%nat -> written = books).
Proof.
  intros Hmain.
  destruct (main_finished world _ _ _ Hmain) as [-> Hout].
  split; [exact Hout |]. split; [split |].
  - apply successes_le_with_image.
  - apply filter_length_le.
  - apply no_success_no_change.
Qed.

Lemma updated_count_bounds_witness :
  (successes world_of_failures 0 [book_A; book_B; book_C; book_D]
   <= List.length (filter (fun b => truthy (image_url b))
                          [book_A; book_B; book_C; book_D])
   <= 4)%nat.
Proof.
  destruct (updated_count_bounds
              world_of_failures [book_A; book_B; book_C; book_D]
              [book_A; book_B; book_C; book_D]
              [Progress 1 4 (JStr "A");
               Errored (Raise URLError "no route to host");
               Progress 2 4 (JStr "B");
               Errored (Raise UnidentifiedImageError
                              "cannot identify image file");
               Progress 3 4 (JStr "C");
               Errored (Raise ValueError "max() arg is an empty sequence");
               Skipped 4 4 (JStr "D");
               Summary (Updater.summary_line 0 4)])
    as (_ & Hle & _).
  - vm_compute. reflexivity.
  - exact Hle.
Defined.

Section Printed.

Variable world : nat -> json -> result (list pixel).

Lemma notices_line_numbers (total : nat) (books : catalog) (i : nat) :
  flat_map line_numbers (notices_from world total i books)
  = map (fun pos => (pos, total)) (seq (i + 1) (List.length books)).
Proof.
  revert i. induction books as [| b rest IH]; intros i; simpl; [reflexivity |].
  rewrite flat_map_app, IH. replace (S i + 1)%nat with (S (i + 1)) by lia.
  unfold notices. destruct (truthy (image_url b)); simpl; [| reflexivity].
  now destruct (extraction world i b).
Qed.

Lemma notices_colored (total : nat) (books : catalog) (i : nat) :
  List.length (filter is_colored (notices_from world total i books))
  = successes world i books.
Proof.
  revert i. induction books as [| b rest IH]; intros i; [reflexivity |].
  rewrite successes_cons. simpl. rewrite filter_app, length_app, IH.
  f_equal. unfold notices, succeeded.
  destruct (truthy (image_url b)); simpl; [| reflexivity].
  now destruct (extraction world i b).
Qed.

Lemma notices_errored (total : nat) (books : catalog) (i : nat) :
  (List.length (filter is_errored (notices_from world total i books))
   + successes world i books)%nat
  = List.length (filter (fun b => truthy (image_url b)) books).
Proof.
  revert i. induction books as [| b rest IH]; intros i; [reflexivity |].
  rewrite successes_cons. simpl. rewrite filter_app, length_app.
  specialize (IH (S i)). unfold notices, succeeded.
  destruct (truthy (image_url b)); simpl; [| lia].
  destruct (extraction world i b); simpl; lia.
Qed.

End Printed.

(** X18: a run that finishes prints one progress line per record,
    numbered 1 to the number of records in order and each showing that
    number as the total; it prints as many colour lines as the summary
    counts, and colour lines and error lines together are as many as the
    records with an image reference. *)
Theorem printed_lines_follow_the_catalog
        (world : nat -> json -> result (list pixel))
        (books written : catalog) (stdout : list event) :
  Updater.main world books = Finished written stdout ->
  flat_map line_numbers stdout
  = map (fun pos => (pos, List.length books)) (seq 1 (List.length books))
  /\ List.length (filter is_colored stdout) = successes world 0 books
  /\ (List.length (filter is_colored stdout)
      + List.length (filter is_errored stdout))%nat
     = List.length (filter (fun b => truthy (image_url b)) books).
Proof.
  intros Hmain. rewrite (main_stdout world _ _ _ Hmain).
  rewrite flat_map_app, !filter_app, !length_app. simpl.
  rewrite app_nil_r, !Nat.add_0_r.
  rewrite notices_line_numbers, notices_colored.
  split; [reflexivity |]. split; [reflexivity |].
  rewrite <- (notices_errored world (List.length books) books 0). lia.
Qed.

Lemma printed_lines_follow_the_catalog_witness :
  flat_map line_numbers
           [Progress 1 3 (JStr "A"); Colored "#d03030";
            Progress 2 3 (JStr "B"); Errored (Raise URLError "timed out");
            Progress 3 3 (JStr "C"); Colored "#3030d0";
            Summary (Updater.summary_line 2 3)]
  = [(1, 3); (2, 3); (3, 3)]%nat.
Proof.
  apply (printed_lines_follow_the_catalog
           world_second_fails [book_A; book_B; book_C]
           [book_A_red; book_B;
            dict_set "cover_color" (JStr "#3030d0") book_C]).
  vm_compute. reflexivity.
Defined.

(** X19: every record is handled on its own: if two runs that finish
    have the same record at position [k] and the fetching and decoding
    answer alike for it, they write the same record at position [k],
    whatever the other records are and whatever happens to them. *)
Theorem records_are_independent
        (world1 world2 : nat -> json -> result (list pixel))
        (books1 books2 written1 written2 : catalog)
        (stdout1 stdout2 : list event) (k : nat) (book : record) :
  Updater.main world1 books1 = Finished written1 stdout1 ->
  Updater.main world2 books2 = Finished written2 stdout2 ->
  nth_error books1 k = Some book ->
  nth_error books2 k = Some book ->
  world1 k (image_url book) = world2 k (image_url book) ->
  nth_error written1 k = nth_error written2 k.
Proof.
  intros H1 H2 Hk1 Hk2 Hw.
  destruct (main_finished world1 _ _ _ H1) as [-> _].
  destruct (main_finished world2 _ _ _ H2) as [-> _].
  rewrite (visited_from_nth world1 books1 0 k book Hk1).
  rewrite (visited_from_nth world2 books2 0 k book Hk2).
  simpl. unfold visited, extraction, Extractor.get_dominant_color.
  now rewrite Hw.
Qed.

Lemma records_are_independent_witness :
  nth_error [book_A_red; book_D; book_C_red] 0
  = nth_error [book_A_red; book_B;
               dict_set "cover_color" (JStr "#3030d0") book_C] 0.
Proof.
  apply (records_are_independent
           world_red world_second_fails
           [book_A; book_D; book_C] [book_A; book_B; book_C]
           _ _
           [Progress 1 3 (JStr "A"); Colored "#d03030";
            Skipped 2 3 (JStr "D");
            Progress 3 3 (JStr "C"); Colored "#d03030";
            Summary (Updater.summary_line 2 3)]
           [Progress 1 3 (JStr "A"); Colored "#d03030";
            Progress 2 3 (JStr "B"); Errored (Raise URLError "timed out");
            Progress 3 3 (JStr "C"); Colored "#3030d0";
            Summary (Updater.summary_line 2 3)]
           0%nat book_A);
    vm_compute; reflexivity.
Defined.

(** ** Quantization on all integers *)

(** X20: on every integer [c // 32 * 32 + 16] lies between [c - 15] and
    [c + 16]; it is monotone; two values fall in one bucket exactly when
    they have the same quotient by 32; and the bucket of an 8-bit pixel
    is an 8-bit pixel. *)
Theorem bucket_channel_is_monotone :
  (forall c : Z,
      (c - 15 <= Extractor.bucket_channel c <= c + 16)%Z)
  /\ (forall a b : Z,
        (a <= b)%Z ->
        (Extractor.bucket_channel a <= Extractor.bucket_channel b)%Z)
  /\ (forall a b : Z,
        Extractor.bucket_channel a = Extractor.bucket_channel b
        <-> (a / 32 = b / 32)%Z)
  /\ (forall p : pixel, pixel_ok p -> pixel_ok (Extractor.bucket p)).
Proof.
  unfold Extractor.bucket_channel. split; [| split; [| split]].
  - intros c.
    pose proof (Z.div_mod c 32 ltac:(lia)) as Hdm.
    pose proof (Z.mod_pos_bound c 32 ltac:(lia)) as Hm. lia.
  - intros a b Hab.
    pose proof (Z.div_le_mono a b 32 ltac:(lia) Hab). lia.
  - intros a b. split; intros H; lia.
  - intros [[r g] b] (Hr & Hg & Hb). simpl.
    repeat split;
      apply levels_are_channels; now apply bucket_channel_in_levels.
Qed.

Lemma bucket_channel_is_monotone_witness :
  (Extractor.bucket_channel 31 <= Extractor.bucket_channel 32)%Z
  /\ pixel_ok (Extractor.bucket (255, 0, 127)%Z).
Proof.
  pose proof bucket_channel_is_monotone as (_ & Hmono & _ & Hok).
  split.
  - apply Hmono. lia.
  - apply Hok. unfold pixel_ok, channel_ok. lia.
Defined.
